(** * Effect coordination on the LED lines (gpio.py)

    A shallow embedding of [StandalonePWM] and [LEDGPIO] from [gpio.py].

    The coroutines of the source are written as programs over a small
    instruction set ([Prog]): calls into the [RPi.GPIO] driver, suspension
    points ([await asyncio.sleep]), the class-level [asyncio.Lock], reads and
    writes of the Python objects' fields, and the blocking wait on the
    oscillator's future.  Two semantics are given to these programs:

    - [run], a sequential semantics for one request served on an otherwise
      idle coordinator, where the rest of the process acts only through an
      environment [Env] (flags set by other tasks while the request is
      suspended, and whether the oscillator finishes within the wait);
    - [cstep], an interleaving semantics for several requests sharing the
      lock. *)

From Stdlib Require Import ZArith List Bool String Ascii Lia Arith.
Import ListNotations.
Local Open Scope string_scope.
Local Open Scope Z_scope.

Set Implicit Arguments.

(** ** Python built-ins used by the source *)

Module Py.

Inductive Exn :=
| ValueError
| RuntimeError
| IndexError
| AttributeError
| TimeoutError
| CancelledError.

(** Binary digits of a positive number, most significant first. *)
Fixpoint bin_digits (p : positive) : string :=
  match p with
  | xH => "1"
  | xO q => bin_digits q ++ "0"
  | xI q => bin_digits q ++ "1"
  end.

(** [bin(n)] *)
Definition bin (n : Z) : string :=
  match n with
  | Z0 => "0b0"
  | Zpos p => "0b" ++ bin_digits p
  | Zneg p => "-0b" ++ bin_digits p
  end.

(** [s[k:]] for a non-negative literal [k] *)
Fixpoint slice_from (k : nat) (s : string) : string :=
  match k, s with
  | O, _ => s
  | S _, EmptyString => EmptyString
  | S k', String _ r => slice_from k' r
  end.

Definition digit_of_ascii (c : ascii) : option Z :=
  let n := Z.of_N (N_of_ascii c) in
  if (48 <=? n) && (n <=? 57) then Some (n - 48) else None.

Fixpoint parse_digits (s : string) (acc : Z) : option Z :=
  match s with
  | EmptyString => Some acc
  | String c r =>
      match digit_of_ascii c with
      | Some d => parse_digits r (10 * acc + d)
      | None => None
      end
  end.

(** [int(s)] on a string: an optional sign and one or more decimal digits;
    [None] stands for [ValueError].  (Surrounding blanks and digit-group
    underscores, which [int] also accepts, never occur in the strings the
    source builds.) *)
Definition int (s : string) : option Z :=
  match s with
  | EmptyString => None
  | String "-" EmptyString => None
  | String "+" EmptyString => None
  | String "-" r => option_map Z.opp (parse_digits r 0)
  | String "+" r => parse_digits r 0
  | _ => parse_digits s 0
  end.

Definition ascii_of_digit (d : Z) : ascii :=
  ascii_of_N (Z.to_N (48 + d)).

Fixpoint dec_digits (fuel : nat) (n : Z) (acc : string) : string :=
  match fuel with
  | O => acc
  | S f =>
      let acc' := String (ascii_of_digit (n mod 10)) acc in
      if n / 10 =? 0 then acc' else dec_digits f (n / 10) acc'
  end.

(** Decimal digits of a natural number (a number has no more decimal
    digits than binary ones). *)
Definition str_nonneg (n : Z) : string :=
  dec_digits (S (Z.to_nat (Z.log2 n))) n EmptyString.

Fixpoint zeros (k : nat) : string :=
  match k with
  | O => EmptyString
  | S k' => String "0" (zeros k')
  end.

(** [f'{n:07}']: sign-aware zero padding to a total width of seven. *)
Definition format_07 (n : Z) : string :=
  if n <? 0 then
    let d := str_nonneg (- n) in
    String "-" (zeros (6 - String.length d) ++ d)
  else
    let d := str_nonneg n in
    zeros (7 - String.length d) ++ d.

(** [s[i]] for [i >= 0]: a one-character string, or [IndexError]. *)
Definition str_index (s : string) (i : nat) : option string :=
  match String.get i s with
  | Some c => Some (String c EmptyString)
  | None => None
  end.

(** [l[i]] with Python's negative indices; [None] stands for [IndexError]. *)
Definition list_index {A : Type} (l : list A) (i : Z) : option A :=
  let n := Z.of_nat (List.length l) in
  if (0 <=? i) && (i <? n) then nth_error l (Z.to_nat i)
  else if (- n <=? i) && (i <? 0) then nth_error l (Z.to_nat (i + n))
  else None.

(** [l[0::2]] *)
Fixpoint every_other {A : Type} (l : list A) : list A :=
  match l with
  | [] => []
  | x :: r => x :: match r with [] => [] | _ :: r' => every_other r' end
  end.

(** [l[start::2]] for a non-negative [start] *)
Definition slice_step2 {A : Type} (start : nat) (l : list A) : list A :=
  every_other (skipn start l).

(** [int(b)] on a [bool] *)
Definition int_of_bool (b : bool) : nat := if b then 1%nat else 0%nat.

End Py.

Export Py.

Local Open Scope list_scope.

(** ** The output driver ([RPi.GPIO]) *)

Inductive Level := LOW | HIGH.

(** The calls the source makes into the driver.  A [GPIO.PWM] object is
    identified with the pin it was created on.  The driver belongs to the
    platform: its calls are taken to succeed. *)
Inductive GpioCall :=
| setmode_BCM
| setup_OUT (channels : list Z)
| output (pin : Z) (lv : Level)
| PWM (pin freq : Z)
| PWM_start (pin dc : Z)
| PWM_ChangeDutyCycle (pin dc : Z)
| PWM_stop (pin : Z)
| cleanup.

(** What a request leaves behind, in the order it happened: driver calls,
    suspensions ([await asyncio.sleep(ms / 1000)]), lines on stdout, and
    taking and giving back [LEDGPIO.lock]. *)
Inductive Event :=
| EvGpio (c : GpioCall)
| EvSleep (ms : Z)
| EvStdout (n : Z)
| EvAcquire
| EvRelease.

(** The events that act on a line: a digital write, or creating, starting,
    changing or stopping PWM on it. *)
Definition is_line_write (e : Event) : bool :=
  match e with
  | EvGpio (output _ _) => true
  | EvGpio (PWM _ _) => true
  | EvGpio (PWM_start _ _) => true
  | EvGpio (PWM_ChangeDutyCycle _ _) => true
  | EvGpio (PWM_stop _) => true
  | _ => false
  end.

(** The state of one line after a history of events, newest event first:
    the digital level last written, and the duty cycle while PWM runs. *)
Fixpoint line_level (tr : list Event) (pin : Z) : Level :=
  match tr with
  | [] => LOW
  | EvGpio (output p lv) :: r => if p =? pin then lv else line_level r pin
  | EvGpio cleanup :: _ => LOW
  | _ :: r => line_level r pin
  end.

Fixpoint line_pwm (tr : list Event) (pin : Z) : option Z :=
  match tr with
  | [] => None
  | EvGpio (PWM_start p dc) :: r => if p =? pin then Some dc else line_pwm r pin
  | EvGpio (PWM_ChangeDutyCycle p dc) :: r =>
      if p =? pin
      then match line_pwm r pin with Some _ => Some dc | None => None end
      else line_pwm r pin
  | EvGpio (PWM_stop p) :: r => if p =? pin then None else line_pwm r pin
  | EvGpio cleanup :: _ => None
  | _ :: r => line_pwm r pin
  end.

(** A line reads LOW: no PWM is running on it and its level is LOW. *)
Definition reads_low (tr : list Event) (pin : Z) : Prop :=
  line_level tr pin = LOW /\ line_pwm tr pin = None.

(** ** The Python objects *)

(** State of a [concurrent.futures.Future] as [result] and [cancel] see it. *)
Inductive FutureState := FPending | FFinished | FCancelled.

(** Fields of a [StandalonePWM] object. *)
Record StandalonePWM := {
  stop_request : bool;
  pwm : option Z;
  future : option FutureState
}.

(** The coordinator: the class-level events of [LEDGPIO], the fields of its
    one instance, and the [StandalonePWM] objects created so far
    ([breath_pwm] is a reference into [heap]). *)
Record LEDGPIO := {
  event : bool;
  stop_event : bool;
  clean_required : bool;
  breath_pwm : option nat;
  heap : list StandalonePWM
}.

Definition pins : list Z := [17; 27; 22; 5; 6; 13; 19; 26].

Definition set_event (b : bool) (c : LEDGPIO) : LEDGPIO :=
  {| event := b; stop_event := stop_event c; clean_required := clean_required c;
     breath_pwm := breath_pwm c; heap := heap c |}.

Definition set_stop_event (b : bool) (c : LEDGPIO) : LEDGPIO :=
  {| event := event c; stop_event := b; clean_required := clean_required c;
     breath_pwm := breath_pwm c; heap := heap c |}.

Definition set_clean_required (b : bool) (c : LEDGPIO) : LEDGPIO :=
  {| event := event c; stop_event := stop_event c; clean_required := b;
     breath_pwm := breath_pwm c; heap := heap c |}.

Definition set_breath_pwm (r : option nat) (c : LEDGPIO) : LEDGPIO :=
  {| event := event c; stop_event := stop_event c;
     clean_required := clean_required c; breath_pwm := r; heap := heap c |}.

Definition set_heap (h : list StandalonePWM) (c : LEDGPIO) : LEDGPIO :=
  {| event := event c; stop_event := stop_event c;
     clean_required := clean_required c; breath_pwm := breath_pwm c; heap := h |}.

Fixpoint update_nth {A : Type} (n : nat) (f : A -> A) (l : list A) : list A :=
  match l, n with
  | [], _ => []
  | x :: r, O => f x :: r
  | x :: r, S m => x :: update_nth m f r
  end.

Definition update_osc (o : nat) (f : StandalonePWM -> StandalonePWM)
  (c : LEDGPIO) : LEDGPIO :=
  set_heap (update_nth o f (heap c)) c.

Definition alloc (s : StandalonePWM) (c : LEDGPIO) : LEDGPIO :=
  set_heap (heap c ++ [s]) c.

Definition set_stop_request (b : bool) (s : StandalonePWM) : StandalonePWM :=
  {| stop_request := b; pwm := pwm s; future := future s |}.

Definition set_pwm (p : option Z) (s : StandalonePWM) : StandalonePWM :=
  {| stop_request := stop_request s; pwm := p; future := future s |}.

Definition set_future (f : option FutureState) (s : StandalonePWM) : StandalonePWM :=
  {| stop_request := stop_request s; pwm := pwm s; future := f |}.

(** ** Programs *)

(** Outcome of [future.result(1)]: the value, [TimeoutError], or
    [CancelledError]. *)
Inductive WaitResult := WaitDone | WaitTimedOut | WaitCancelled.

(** A coroutine or method of the source, as the sequence of what it does
    to the rest of the process:
    - [Ret], [Raise]: it returns a value, or raises;
    - [OutOfFuel]: an unbounded loop was cut off (see [forever_until_stop]);
    - [Gpio], [Stdout]: a driver call, a [print];
    - [Sleep]: [await asyncio.sleep], where other tasks may run;
    - [Acquire], [Release]: entering and leaving [async with self.lock];
    - [Get], [Modify]: reading and updating fields of the Python objects;
    - [FutureResult]: the blocking [future.result(1)] on an oscillator;
    - [Spawn]: [asyncio.run_coroutine_threadsafe] on [runnable]. *)
Inductive Prog (A : Type) : Type :=
| Ret (a : A)
| Raise (e : Exn)
| OutOfFuel
| Gpio (c : GpioCall) (k : Prog A)
| Stdout (n : Z) (k : Prog A)
| Sleep (ms : Z) (k : Prog A)
| Acquire (k : Prog A)
| Release (k : Prog A)
| Get (k : LEDGPIO -> Prog A)
| Modify (f : LEDGPIO -> LEDGPIO) (k : Prog A)
| FutureResult (o : nat) (k : WaitResult -> Prog A)
| Spawn (o : nat) (k : Prog A).

Arguments Raise {A} e.
Arguments OutOfFuel {A}.
Arguments Get {A} k.

Fixpoint bind {A B : Type} (p : Prog A) (f : A -> Prog B) : Prog B :=
  match p with
  | Ret a => f a
  | Raise e => Raise e
  | OutOfFuel => OutOfFuel
  | Gpio c k => Gpio c (bind k f)
  | Stdout n k => Stdout n (bind k f)
  | Sleep ms k => Sleep ms (bind k f)
  | Acquire k => Acquire (bind k f)
  | Release k => Release (bind k f)
  | Get k => Get (fun c => bind (k c) f)
  | Modify g k => Modify g (bind k f)
  | FutureResult o k => FutureResult o (fun r => bind (k r) f)
  | Spawn o k => Spawn o (bind k f)
  end.

Declare Scope prog_scope.
Delimit Scope prog_scope with prog.
Notation "x <- p ;; q" := (bind p (fun x => q))
  (at level 61, p at next level, right associativity) : prog_scope.
Notation "p ;; q" := (bind p (fun _ => q))
  (at level 61, right associativity) : prog_scope.
Local Open Scope prog_scope.

Definition gpio (c : GpioCall) : Prog unit := Gpio c (Ret tt).
Definition print (n : Z) : Prog unit := Stdout n (Ret tt).
Definition sleep (ms : Z) : Prog unit := Sleep ms (Ret tt).
Definition get : Prog LEDGPIO := Get (fun c => Ret c).
Definition modify (f : LEDGPIO -> LEDGPIO) : Prog unit := Modify f (Ret tt).
Definition spawn (o : nat) : Prog unit := Spawn o (Ret tt).

(** [try: p except ...: h] *)
Fixpoint try_except {A : Type} (p : Prog A) (h : Exn -> Prog A) : Prog A :=
  match p with
  | Ret a => Ret a
  | Raise e => h e
  | OutOfFuel => OutOfFuel
  | Gpio c k => Gpio c (try_except k h)
  | Stdout n k => Stdout n (try_except k h)
  | Sleep ms k => Sleep ms (try_except k h)
  | Acquire k => Acquire (try_except k h)
  | Release k => Release (try_except k h)
  | Get k => Get (fun c => try_except (k c) h)
  | Modify g k => Modify g (try_except k h)
  | FutureResult o k => FutureResult o (fun r => try_except (k r) h)
  | Spawn o k => Spawn o (try_except k h)
  end.

(** The exit of [async with self.lock]: the lock is released whether the
    body returns or raises. *)
Fixpoint releasing {A : Type} (p : Prog A) : Prog A :=
  match p with
  | Ret a => Release (Ret a)
  | Raise e => Release (Raise e)
  | OutOfFuel => OutOfFuel
  | Gpio c k => Gpio c (releasing k)
  | Stdout n k => Stdout n (releasing k)
  | Sleep ms k => Sleep ms (releasing k)
  | Acquire k => Acquire (releasing k)
  | Release k => Release (releasing k)
  | Get k => Get (fun c => releasing (k c))
  | Modify g k => Modify g (releasing k)
  | FutureResult o k => FutureResult o (fun r => releasing (k r))
  | Spawn o k => Spawn o (releasing k)
  end.

(** [async with self.lock: body] *)
Definition with_lock {A : Type} (body : Prog A) : Prog A :=
  Acquire (releasing body).

(** [for x in l: body x] *)
Fixpoint for_each {X : Type} (l : list X) (body : X -> Prog unit) : Prog unit :=
  match l with
  | [] => Ret tt
  | x :: r => body x ;; for_each r body
  end.

(** [[f x for x in l]] *)
Fixpoint comprehension {X Y : Type} (l : list X) (f : X -> Prog Y) : Prog (list Y) :=
  match l with
  | [] => Ret []
  | x :: r => y <- f x ;; ys <- comprehension r f ;; Ret (y :: ys)
  end.

(** [range(n)] and [range(n, -1, -1)] for a literal [n >= 0] *)
Definition range (n : nat) : list Z := map Z.of_nat (seq 0 n).
Definition range_down (n : nat) : list Z := rev (map Z.of_nat (seq 0 (S n))).

(** ** class StandalonePWM *)

Definition lookup_osc (c : LEDGPIO) (o : nat) : option StandalonePWM :=
  nth_error (heap c) o.

(** [self.pwm] and [self.stop_request.is_set()] of oscillator [o]. *)
Definition osc_pwm (c : LEDGPIO) (o : nat) : option Z :=
  match lookup_osc c o with
  | Some s => pwm s
  | None => None
  end.

Definition osc_stop_request (c : LEDGPIO) (o : nat) : bool :=
  match lookup_osc c o with
  | Some s => stop_request s
  | None => false
  end.

(** [StandalonePWM(pin)]: returns the reference to the new object. *)
Definition StandalonePWM_init (pin : Z) : Prog nat :=
  gpio (PWM pin 50) ;;
  gpio (PWM_start pin 0) ;;
  c <- get ;;
  modify (alloc {| stop_request := false; pwm := Some pin; future := None |}) ;;
  Ret (List.length (heap c)).

(** [self.pwm.ChangeDutyCycle(dc)] *)
Definition self_pwm_ChangeDutyCycle (o : nat) (dc : Z) : Prog unit :=
  c <- get ;;
  match lookup_osc c o with
  | Some {| pwm := Some p |} => gpio (PWM_ChangeDutyCycle p dc)
  | _ => Raise AttributeError
  end.

(** [self.pwm.stop()] *)
Definition self_pwm_stop (o : nat) : Prog unit :=
  c <- get ;;
  match lookup_osc c o with
  | Some {| pwm := Some p |} => gpio (PWM_stop p)
  | _ => Raise AttributeError
  end.

(** One turn of the [while] loop of [runnable]. *)
Definition runnable_body (o : nat) : Prog unit :=
  for_each (range 10) (fun dc =>
    self_pwm_ChangeDutyCycle o (dc * 10) ;;
    sleep 200) ;;
  sleep 1000 ;;
  for_each (range_down 10) (fun dc =>
    self_pwm_ChangeDutyCycle o (dc * 10) ;;
    sleep 200) ;;
  sleep 1000.

(** [runnable]; [fuel] bounds the number of turns of the [while] loop. *)
Fixpoint runnable (fuel : nat) (o : nat) : Prog unit :=
  match fuel with
  | O => OutOfFuel
  | S f =>
      c <- get ;;
      match lookup_osc c o with
      | None => Raise AttributeError
      | Some s =>
          if negb (stop_request s) then
            runnable_body o ;;
            runnable f o
          else
            self_pwm_stop o ;;
            modify (update_osc o (set_pwm None))
      end
  end.

Definition set_stop (o : nat) : Prog unit :=
  modify (update_osc o (set_stop_request true)).

(** [run]: the coroutine is handed to the event loop and its future kept. *)
Definition StandalonePWM_run (o : nat) : Prog unit :=
  spawn o ;;
  modify (update_osc o (set_future (Some FPending))).

(** [Future.cancel()]: a pending future becomes cancelled, a finished or
    cancelled one is left as it is. *)
Definition cancel (f : FutureState) : FutureState :=
  match f with
  | FPending => FCancelled
  | FFinished => FFinished
  | FCancelled => FCancelled
  end.

Definition force_stop (o : nat) : Prog unit :=
  c <- get ;;
  match lookup_osc c o with
  | Some {| future := Some f |} =>
      modify (update_osc o (set_future (Some (cancel f)))) ;;
      c <- get ;;
      match lookup_osc c o with
      | Some {| pwm := Some p |} =>
          gpio (PWM_stop p) ;;
          modify (update_osc o (set_pwm None))
      | _ => Ret tt
      end
  | _ => Raise AttributeError
  end.

(** [self.future.result(1)] *)
Definition future_result (o : nat) : Prog unit :=
  c <- get ;;
  match lookup_osc c o with
  | Some {| future := Some _ |} =>
      FutureResult o (fun r =>
        match r with
        | WaitDone => Ret tt
        | WaitTimedOut => Raise TimeoutError
        | WaitCancelled => Raise CancelledError
        end)
  | _ => Raise AttributeError
  end.

(** ** class LEDGPIO *)

(** [__init__] *)
Definition LEDGPIO_init : Prog unit :=
  modify (set_clean_required false) ;;
  modify (set_breath_pwm None) ;;
  gpio setmode_BCM ;;
  gpio (setup_OUT pins).

Definition _unsafe_set_light_flash (pins : list Z) : Prog unit :=
  for_each pins (fun pin => gpio (output pin HIGH)) ;;
  sleep 200 ;;
  for_each pins (fun pin => gpio (output pin LOW)).

Definition clean_number : Prog unit :=
  with_lock (
    c <- get ;;
    match breath_pwm c with
    | Some o =>
        set_stop o ;;
        try_except (future_result o) (fun e =>
          match e with
          | TimeoutError => force_stop o
          | _ => Raise e
          end)
    | None => Ret tt
    end ;;
    for_each pins (fun pin => gpio (output pin LOW)) ;;
    modify (set_clean_required false)).

(** The part of [clean_number] that deals with the oscillator. *)
Definition reconcile_part : Prog unit :=
  c <- get ;;
  match breath_pwm c with
  | Some o =>
      set_stop o ;;
      try_except (future_result o) (fun e =>
        match e with
        | TimeoutError => force_stop o
        | _ => Raise e
        end)
  | None => Ret tt
  end.

(** The oscillator that [breath_pwm] refers to, if any, can be waited for:
    its future is pending or finished (not cancelled by an earlier forced
    stop). *)
Definition reconcilable (c : LEDGPIO) : Prop :=
  match breath_pwm c with
  | None => True
  | Some o =>
      exists s, lookup_osc c o = Some s /\
                (future s = Some FPending \/ future s = Some FFinished)
  end.

(** [for _ in range(n): if self.stop_event.is_set(): break; body] *)
Fixpoint repeat_until_stop (n : nat) (body : Prog unit) : Prog unit :=
  match n with
  | O => Ret tt
  | S m =>
      c <- get ;;
      if stop_event c then Ret tt
      else body ;; repeat_until_stop m body
  end.

(** [while True: if self.stop_event.is_set(): break; body]; [fuel] bounds
    the number of turns. *)
Fixpoint forever_until_stop (fuel : nat) (body : Prog unit) : Prog unit :=
  match fuel with
  | O => OutOfFuel
  | S f =>
      c <- get ;;
      if stop_event c then Ret tt
      else body ;; forever_until_stop f body
  end.

Definition _set_light_flash_num (times : Z) (pins : list Z) : Prog unit :=
  c <- get ;;
  (if clean_required c then clean_number else Ret tt) ;;
  with_lock (
    modify (set_event true) ;;
    modify (set_stop_event false) ;;
    repeat_until_stop (Z.to_nat times) (_unsafe_set_light_flash pins) ;;
    modify (set_event false)).

(** The part of [_set_light_flash_num] under the lock. *)
Definition flash_critical_section (times : Z) (pins : list Z) : Prog unit :=
  with_lock (
    modify (set_event true) ;;
    modify (set_stop_event false) ;;
    repeat_until_stop (Z.to_nat times) (_unsafe_set_light_flash pins) ;;
    modify (set_event false)).

Definition set_light_flash (times : Z) (custom_pins : option (list Z))
  (is_odd : bool) : Prog unit :=
  let pins :=
    match custom_pins with
    | None => slice_step2 (int_of_bool (negb is_odd)) pins
    | Some custom => custom
    end in
  _set_light_flash_num times pins.

Definition _unsafe_light_breath (pwms : list Z) : Prog unit :=
  for_each (range 10) (fun dc =>
    for_each pwms (fun pwm => gpio (PWM_ChangeDutyCycle pwm (dc * 10))) ;;
    sleep 50) ;;
  sleep 50 ;;
  for_each (range_down 10) (fun dc =>
    for_each pwms (fun pwm => gpio (PWM_ChangeDutyCycle pwm (dc * 10))) ;;
    sleep 50).

(** [set_light_breath]; [times = None] is Python's [None].  [fuel] bounds
    the turns of the [while True] loop only. *)
Definition set_light_breath (fuel : nat) (times : option Z)
  (pins_arg : option (list Z)) : Prog unit :=
  pins <- match pins_arg with
          | None => Ret pins
          | Some xs =>
              comprehension xs (fun x =>
                match list_index pins (x - 1) with
                | Some p => Ret p
                | None => Raise IndexError
                end)
          end ;;
  c <- get ;;
  (if clean_required c then clean_number else Ret tt) ;;
  with_lock (
    modify (set_event true) ;;
    modify (set_stop_event false) ;;
    pwms <- comprehension pins (fun pin => gpio (PWM pin 50) ;; Ret pin) ;;
    for_each pwms (fun pwm => gpio (PWM_start pwm 0)) ;;
    match times with
    | None =>
        forever_until_stop fuel (_unsafe_light_breath pwms ;; sleep 50)
    | Some times =>
        repeat_until_stop (Z.to_nat times) (_unsafe_light_breath pwms ;; sleep 50)
    end ;;
    for_each pwms (fun pwm => gpio (PWM_stop pwm)) ;;
    modify (set_event false)).

(** The part of [set_light_breath] under the lock, for the pins [pins]. *)
Definition breath_critical_section (fuel : nat) (times : option Z)
  (pins : list Z) : Prog unit :=
  with_lock (
    modify (set_event true) ;;
    modify (set_stop_event false) ;;
    pwms <- comprehension pins (fun pin => gpio (PWM pin 50) ;; Ret pin) ;;
    for_each pwms (fun pwm => gpio (PWM_start pwm 0)) ;;
    match times with
    | None =>
        forever_until_stop fuel (_unsafe_light_breath pwms ;; sleep 50)
    | Some times =>
        repeat_until_stop (Z.to_nat times) (_unsafe_light_breath pwms ;; sleep 50)
    end ;;
    for_each pwms (fun pwm => gpio (PWM_stop pwm)) ;;
    modify (set_event false)).

(** The pins [set_light_breath] works on: all of them, or the 1-indexed
    selection; [None] stands for [IndexError]. *)
Fixpoint select_pins (xs : list Z) : option (list Z) :=
  match xs with
  | [] => Some []
  | x :: r =>
      match list_index pins (x - 1), select_pins r with
      | Some p, Some ps => Some (p :: ps)
      | _, _ => None
      end
  end.

Definition breath_pins (pins_arg : option (list Z)) : option (list Z) :=
  match pins_arg with
  | None => Some pins
  | Some xs => select_pins xs
  end.

(** An argument of a call that has a default: left out, or passed. *)
Inductive Arg (A : Type) := Omitted | Passed (a : A).
Arguments Omitted {A}.

Definition arg_or {A : Type} (default : A) (a : Arg A) : A :=
  match a with
  | Omitted => default
  | Passed x => x
  end.

(** A call [set_light_breath(...)] in which [times] may be left out: the
    signature reads [times: Optional[int] = 1]. *)
Definition call_set_light_breath (fuel : nat) (times : Arg (option Z))
  (pins_arg : option (list Z)) : Prog unit :=
  set_light_breath fuel (arg_or (Some 1) times) pins_arg.

(** The body of [for i in range(7)] in [show_number]. *)
Definition show_bit (b : string) (i : nat) : Prog unit :=
  match list_index pins (Z.of_nat i + 1), str_index b i with
  | Some pin, Some ch =>
      match int ch with
      | Some d => gpio (output pin (if d =? 0 then LOW else HIGH))
      | None => Raise ValueError
      end
  | _, _ => Raise IndexError
  end.

Definition show_number (number : Z) (show_breath : bool) : Prog unit :=
  print number ;;
  if negb ((128 >? number) && (number >? 0)) then Raise ValueError
  else
    with_lock (
      modify (set_event true) ;;
      (if show_breath then
         match list_index pins 0 with
         | Some pin0 =>
             o <- StandalonePWM_init pin0 ;;
             modify (set_breath_pwm (Some o)) ;;
             StandalonePWM_run o
         | None => Raise IndexError
         end
       else Ret tt) ;;
      modify (set_clean_required true) ;;
      match int (slice_from 2 (bin number)) with
      | Some digits =>
          let b := format_07 digits in
          for_each (seq 0 7) (show_bit b) ;;
          modify (set_event false)
      | None => Raise ValueError
      end).

(** [close].  The test [if self.clean_required:] is on the [asyncio.Event]
    object itself, which defines neither [__bool__] nor [__len__] and so is
    always true; the flag it carries is not consulted. *)
Definition event_object_truth (flag : bool) : bool := true.

Definition close : Prog unit :=
  c <- get ;;
  if event c then Raise RuntimeError
  else
    (if event_object_truth (clean_required c) then clean_number else Ret tt) ;;
    gpio cleanup.

(** ** Sequential semantics: one request on an otherwise idle coordinator *)

(** The request runs from its call to its return.  The lock is free or held
    for good; other tasks get to run only while the request is suspended,
    and then do nothing but set stop flags.  A launched oscillator runs in
    the background: the duty cycles it writes to its own line are not part
    of the request's history; it shows up only when the request waits for
    it. *)

(** What another task may do to the shared flags while the request is
    suspended: nothing, set [LEDGPIO.stop_event], or call [set_stop] on an
    oscillator. *)
Inductive Interference := Quiet | SetStopEvent | SetStop (o : nat).

(** What a method without [await] does to the Python objects when another
    task runs it while the request is suspended: its reads and updates of
    fields, up to its first instruction of another kind. *)
Fixpoint atomically (p : Prog unit) (c : LEDGPIO) : LEDGPIO :=
  match p with
  | Get k => atomically (k c) c
  | Modify f k => atomically k (f c)
  | _ => c
  end.

Definition interfere (i : Interference) (c : LEDGPIO) : LEDGPIO :=
  match i with
  | Quiet => c
  | SetStopEvent => set_stop_event true c
  | SetStop o => atomically (set_stop o) c
  end.

(** The environment of a request: the interference during its [n]-th
    suspension, and whether a pending oscillator whose stop was requested
    ends within the one-second wait of [future.result(1)].  [run] hands
    [runnable] to the event loop of the calling thread, and [result(1)]
    blocks that thread: for the requests of this program the wait on a
    pending future times out, which is [ends_in_time = false];
    [ends_in_time = true] stands for an oscillator that gets to run while the
    request waits. *)
Record Env := {
  interference : nat -> Interference;
  ends_in_time : bool
}.

Record World := {
  coord : LEDGPIO;
  locked : bool;
  trace : list Event;      (* newest first *)
  ticks : nat              (* suspensions so far *)
}.

Definition log (e : Event) (w : World) : World :=
  {| coord := coord w; locked := locked w; trace := e :: trace w;
     ticks := ticks w |}.

Definition set_locked (b : bool) (w : World) : World :=
  {| coord := coord w; locked := b; trace := trace w; ticks := ticks w |}.

Definition set_coord (c : LEDGPIO) (w : World) : World :=
  {| coord := c; locked := locked w; trace := trace w; ticks := ticks w |}.

Definition suspend (env : Env) (ms : Z) (w : World) : World :=
  {| coord := interfere (interference env (ticks w)) (coord w);
     locked := locked w;
     trace := EvSleep ms :: trace w;
     ticks := S (ticks w) |}.

(** The end of [runnable] once its loop is left: [self.pwm.stop()],
    [self.pwm = None], and the future completes. *)
Definition oscillator_exit (o : nat) (s : StandalonePWM) (w : World) : World :=
  let w' := match pwm s with
            | Some p => log (EvGpio (PWM_stop p)) w
            | None => w
            end in
  set_coord
    (update_osc o (fun s => set_future (Some FFinished) (set_pwm None s))
       (coord w')) w'.

(** [future.result(1)] on oscillator [o]. *)
Definition join (env : Env) (o : nat) (w : World) : WaitResult * World :=
  match lookup_osc (coord w) o with
  | Some s =>
      match future s with
      | Some FFinished => (WaitDone, w)
      | Some FCancelled => (WaitCancelled, w)
      | Some FPending =>
          if stop_request s && ends_in_time env
          then (WaitDone, oscillator_exit o s w)
          else (WaitTimedOut, w)
      | None => (WaitCancelled, w)
      end
  | None => (WaitCancelled, w)
  end.

Inductive Outcome (A : Type) :=
| Returned (a : A)
| Raised (e : Exn)
| Blocked          (* waits for the lock, which nobody will release *)
| Diverged.        (* fuel exhausted *)

Arguments Raised {A} e.
Arguments Blocked {A}.
Arguments Diverged {A}.

Fixpoint run {A : Type} (env : Env) (p : Prog A) (w : World) : Outcome A * World :=
  match p with
  | Ret a => (Returned a, w)
  | Raise e => (Raised e, w)
  | OutOfFuel => (Diverged, w)
  | Gpio c k => run env k (log (EvGpio c) w)
  | Stdout n k => run env k (log (EvStdout n) w)
  | Sleep ms k => run env k (suspend env ms w)
  | Acquire k =>
      if locked w then (Blocked, w)
      else run env k (set_locked true (log EvAcquire w))
  | Release k => run env k (set_locked false (log EvRelease w))
  | Get k => run env (k (coord w)) w
  | Modify f k => run env k (set_coord (f (coord w)) w)
  | FutureResult o k => let (r, w') := join env o w in run env (k r) w'
  | Spawn o k => run env k w
  end.

(** The world a request leaves, and how it ended. *)
Definition exec {A : Type} (env : Env) (p : Prog A) (w : World) : World :=
  snd (run env p w).
Definition outcome {A : Type} (env : Env) (p : Prog A) (w : World) : Outcome A :=
  fst (run env p w).

(** The events a request added to the history, oldest first. *)
Definition events_of {A : Type} (env : Env) (p : Prog A) (w : World) : list Event :=
  let w' := exec env p w in
  rev (firstn (List.length (trace w') - List.length (trace w)) (trace w')).

(** A quiet environment: nobody interferes; the oscillator does, or does
    not, end in time. *)
Definition quiet (in_time : bool) : Env :=
  {| interference := fun _ => Quiet; ends_in_time := in_time |}.

Definition fresh : LEDGPIO :=
  {| event := false; stop_event := false; clean_required := false;
     breath_pwm := None; heap := [] |}.

(** The world right after [LEDGPIO()]. *)
Definition world0 : World :=
  exec (quiet false) LEDGPIO_init
    {| coord := fresh; locked := false; trace := []; ticks := O |}.

(** Taking and giving back the lock around an effect that does nothing:
    [event] is set and cleared, [stop_event] is cleared. *)
Definition idle_pass (w : World) : World :=
  set_locked false (log EvRelease
    (set_coord (set_event false (set_stop_event false (set_event true (coord w))))
       (set_locked true (log EvAcquire w)))).

(** Replaying a list of events (oldest first) on a world. *)
Definition apply_event (env : Env) (e : Event) (w : World) : World :=
  match e with
  | EvSleep ms => suspend env ms w
  | EvAcquire => set_locked true (log EvAcquire w)
  | EvRelease => set_locked false (log EvRelease w)
  | _ => log e w
  end.

Definition replay (env : Env) (evs : list Event) (w : World) : World :=
  fold_left (fun w e => apply_event env e w) evs w.

Definition is_sleep (e : Event) : bool :=
  match e with EvSleep _ => true | _ => false end.

Definition sleeps (evs : list Event) : nat :=
  List.length (filter is_sleep evs).

(** Interference during the [n] suspensions that start at tick [t]. *)
Fixpoint interfere_from (env : Env) (t n : nat) (c : LEDGPIO) : LEDGPIO :=
  match n with
  | O => c
  | S m => interfere_from env (S t) m (interfere (interference env t) c)
  end.

Definition sets_stop_event (i : Interference) : bool :=
  match i with SetStopEvent => true | _ => false end.

Definition sets_stop_request (o : nat) (i : Interference) : bool :=
  match i with SetStop o' => Nat.eqb o' o | _ => false end.

(** Does some suspension among the [n] that start at tick [t] see an
    interference satisfying [P]? *)
Fixpoint any_tick (P : Interference -> bool) (env : Env) (t n : nat) : bool :=
  match n with
  | O => false
  | S m => P (interference env t) || any_tick P env (S t) m
  end.

(** Turns made by a loop that checks a stop flag before each turn, makes at
    most [n] turns of [k] suspensions each, and is entered at tick [t] with
    the flag clear; [P] tells the interferences that set the flag. *)
Fixpoint turns_until (P : Interference -> bool) (env : Env) (k t n : nat) : nat :=
  match n with
  | O => O
  | S m =>
      if any_tick P env t k then 1%nat
      else S (turns_until P env k (t + k) m)
  end.

(** ** Shapes of the histories the effects leave *)

Definition outputs (ps : list Z) (lv : Level) : list Event :=
  map (fun p => EvGpio (output p lv)) ps.

(** One step of a ramp: the duty cycle goes to every line, then the step is
    held for [ms]. *)
Definition duty_step (pwms : list Z) (ms : Z) (dc : Z) : list Event :=
  map (fun p => EvGpio (PWM_ChangeDutyCycle p dc)) pwms ++ [EvSleep ms].

Definition ramp (pwms : list Z) (ms : Z) (dcs : list Z) : list Event :=
  flat_map (duty_step pwms ms) dcs.

Definition up_steps : list Z := [0; 10; 20; 30; 40; 50; 60; 70; 80; 90].
Definition down_steps : list Z := [100; 90; 80; 70; 60; 50; 40; 30; 20; 10; 0].

(** One repetition of the breath effect as the code performs it. *)
Definition breath_events (pwms : list Z) : list Event :=
  ramp pwms 50 up_steps ++ [EvSleep 50] ++ ramp pwms 50 down_steps.

(** A repetition together with the pause that follows it in the loops of
    [set_light_breath]. *)
Definition breath_turn (pwms : list Z) : list Event :=
  breath_events pwms ++ [EvSleep 50].

(** One repetition as the specification words it: a ramp that starts at 0%
    and ends at 100%, a pause, and the same steps back down to 0%. *)
Definition spec_breath_shape (pwms : list Z) (evs : list Event) : Prop :=
  exists (up : list Z) (pause : Z),
    hd_error up = Some 0 /\ last up 0 = 100 /\
    evs = ramp pwms 50 up ++ [EvSleep pause] ++ ramp pwms 50 (rev up).

(** What [set_light_breath] does around its loop: the lock is taken and PWM
    created and started on every line; PWM is stopped on every line and the
    lock released. *)
Definition breath_prologue (ps : list Z) : list Event :=
  EvAcquire :: map (fun p => EvGpio (PWM p 50)) ps ++
  map (fun p => EvGpio (PWM_start p 0)) ps.

Definition breath_epilogue (ps : list Z) : list Event :=
  map (fun p => EvGpio (PWM_stop p)) ps ++ [EvRelease].

(** One turn of the oscillator's loop on line [p]. *)
Definition oscillator_turn (p : Z) : list Event :=
  ramp [p] 200 up_steps ++ [EvSleep 1000] ++
  ramp [p] 200 down_steps ++ [EvSleep 1000].

(** [n] copies of a history, one after the other. *)
Fixpoint times_over (n : nat) (evs : list Event) : list Event :=
  match n with
  | O => []
  | S m => evs ++ times_over m evs
  end.

(** The history of [clean_number] when the oscillator on line [p] has to be
    stopped by force, and when nothing is outstanding. *)
Definition forced_cleanup_events (p : Z) : list Event :=
  [EvAcquire; EvGpio (PWM_stop p)] ++ outputs pins LOW ++ [EvRelease].

(** ** The numeric display read back *)

(** The seven display lines, most significant bit first. *)
Definition display_pins : list Z := tl pins.

Definition level_of_bit (b : bool) : Level := if b then HIGH else LOW.

(** The seven-bit pattern of [n], most significant bit first. *)
Definition levels_of (n : Z) : list Level :=
  map (fun i => level_of_bit (Z.testbit n (6 - Z.of_nat i))) (seq 0 7).

(** Reading a pattern of levels as a binary number, most significant bit
    first. *)
Definition decode_levels (lvs : list Level) : Z :=
  fold_left (fun acc lv => 2 * acc + match lv with HIGH => 1 | LOW => 0 end) lvs 0.

(** The writes that put the pattern of [n] on the display lines. *)
Definition pattern_writes (n : Z) : list Event :=
  map (fun pl => EvGpio (output (fst pl) (snd pl)))
    (combine display_pins (levels_of n)).

(** The history of a successful [show_number(n, show_breath)]. *)
Definition show_number_events (n : Z) (show_breath : bool) : list Event :=
  [EvStdout n; EvAcquire] ++
  (if show_breath then [EvGpio (PWM 17 50); EvGpio (PWM_start 17 0)] else []) ++
  pattern_writes n ++ [EvRelease].

(** The levels on the display lines after a history. *)
Definition read_display (tr : list Event) : list Level :=
  map (line_level tr) display_pins.

Definition char_of_level (lv : Level) : ascii :=
  match lv with HIGH => "1"%char | LOW => "0"%char end.

Fixpoint string_of_levels (lvs : list Level) : string :=
  match lvs with
  | [] => EmptyString
  | lv :: r => String (char_of_level lv) (string_of_levels r)
  end.

(** The string [b] of [show_number] is the seven-bit pattern of [n]. *)
Definition encodes (n : Z) : bool :=
  match int (slice_from 2 (bin n)) with
  | Some digits => String.eqb (format_07 digits) (string_of_levels (levels_of n))
  | None => false
  end.

(** ** Interleaving semantics: several requests sharing the lock *)

(** Tasks are the coroutines of the pending requests; [owner] is the task
    that holds [LEDGPIO.lock], if any.  A task advances by one instruction
    at a time, which allows every interleaving the event loop can produce
    (it switches tasks at [await] only). *)
Record Config := {
  tasks : list (Prog unit);
  owner : option nat;
  shared : LEDGPIO
}.

Definition set_task (i : nat) (p : Prog unit) (cfg : Config) : Config :=
  {| tasks := update_nth i (fun _ => p) (tasks cfg); owner := owner cfg;
     shared := shared cfg |}.

Definition set_owner (o : option nat) (cfg : Config) : Config :=
  {| tasks := tasks cfg; owner := o; shared := shared cfg |}.

Definition set_shared (c : LEDGPIO) (cfg : Config) : Config :=
  {| tasks := tasks cfg; owner := owner cfg; shared := c |}.

(** [cstep cfg i e cfg']: task [i] executes its next instruction, leaving
    event [e] if the instruction is visible.  [Acquire] can be executed only
    while nobody holds the lock: until then the task waits. *)
Inductive cstep : Config -> nat -> option Event -> Config -> Prop :=
| cs_gpio cfg i c k :
    nth_error (tasks cfg) i = Some (Gpio c k) ->
    cstep cfg i (Some (EvGpio c)) (set_task i k cfg)
| cs_stdout cfg i n k :
    nth_error (tasks cfg) i = Some (Stdout n k) ->
    cstep cfg i (Some (EvStdout n)) (set_task i k cfg)
| cs_sleep cfg i ms k :
    nth_error (tasks cfg) i = Some (Sleep ms k) ->
    cstep cfg i (Some (EvSleep ms)) (set_task i k cfg)
| cs_acquire cfg i k :
    nth_error (tasks cfg) i = Some (Acquire k) ->
    owner cfg = None ->
    cstep cfg i (Some EvAcquire) (set_owner (Some i) (set_task i k cfg))
| cs_release cfg i k :
    nth_error (tasks cfg) i = Some (Release k) ->
    cstep cfg i (Some EvRelease) (set_owner None (set_task i k cfg))
| cs_get cfg i k :
    nth_error (tasks cfg) i = Some (Get k) ->
    cstep cfg i None (set_task i (k (shared cfg)) cfg)
| cs_modify cfg i f k :
    nth_error (tasks cfg) i = Some (Modify f k) ->
    cstep cfg i None (set_shared (f (shared cfg)) (set_task i k cfg))
| cs_future cfg i o k r :
    nth_error (tasks cfg) i = Some (FutureResult o k) ->
    cstep cfg i None (set_task i (k r) cfg)
| cs_spawn cfg i o k :
    nth_error (tasks cfg) i = Some (Spawn o k) ->
    cstep cfg i None (set_task i k cfg).

(** A step of the system: a task moves, or something else in the process
    (an oscillator, a caller of [set_stop]) changes the objects' fields. *)
Inductive step : Config -> Config -> Prop :=
| step_task cfg i e cfg' : cstep cfg i e cfg' -> step cfg cfg'
| step_background cfg c : step cfg (set_shared c cfg).

Inductive reachable (cfg0 : Config) : Config -> Prop :=
| reach_start : reachable cfg0 cfg0
| reach_step cfg cfg' : reachable cfg0 cfg -> step cfg cfg' -> reachable cfg0 cfg'.

(** The effect requests of the coordinator. *)
Inductive Request :=
| ReqFlash (times : Z) (custom_pins : option (list Z)) (is_odd : bool)
| ReqBreath (fuel : nat) (times : option Z) (pins_arg : option (list Z))
| ReqShowNumber (number : Z) (show_breath : bool)
| ReqClean.

Definition program (r : Request) : Prog unit :=
  match r with
  | ReqFlash times custom_pins is_odd => set_light_flash times custom_pins is_odd
  | ReqBreath fuel times pins_arg => set_light_breath fuel times pins_arg
  | ReqShowNumber number show_breath => show_number number show_breath
  | ReqClean => clean_number
  end.

(** Requests arriving on a coordinator whose lock is free. *)
Definition initial (reqs : list Request) (c : LEDGPIO) : Config :=
  {| tasks := map program reqs; owner := None; shared := c |}.

(** Lock discipline of a program: [Disciplined h p h'] says that [p],
    started by a task that holds the lock ([h = true]) or does not
    ([h = false]), writes to lines only while holding it, takes it only when
    not holding it, releases it only when holding it, and ends, by return or
    by exception, holding it iff [h']. *)
Inductive Disciplined {A : Type} : bool -> Prog A -> bool -> Prop :=
| D_Ret h a : Disciplined h (Ret a) h
| D_Raise h e : Disciplined h (Raise e) h
| D_OutOfFuel h h' : Disciplined h OutOfFuel h'
| D_Gpio_held c k h' :
    Disciplined true k h' -> Disciplined true (Gpio c k) h'
| D_Gpio_free c k h h' :
    is_line_write (EvGpio c) = false ->
    Disciplined h k h' -> Disciplined h (Gpio c k) h'
| D_Stdout n k h h' : Disciplined h k h' -> Disciplined h (Stdout n k) h'
| D_Sleep ms k h h' : Disciplined h k h' -> Disciplined h (Sleep ms k) h'
| D_Acquire k h' : Disciplined true k h' -> Disciplined false (Acquire k) h'
| D_Release k h' : Disciplined false k h' -> Disciplined true (Release k) h'
| D_Get k h h' : (forall c, Disciplined h (k c) h') -> Disciplined h (Get k) h'
| D_Modify f k h h' : Disciplined h k h' -> Disciplined h (Modify f k) h'
| D_FutureResult o k h h' :
    (forall r, Disciplined h (k r) h') -> Disciplined h (FutureResult o k) h'
| D_Spawn o k h h' : Disciplined h k h' -> Disciplined h (Spawn o k) h'.

Definition holds (cfg : Config) (i : nat) : bool :=
  match owner cfg with
  | Some j => Nat.eqb j i
  | None => false
  end.

(** Every task follows the lock discipline from where it stands. *)
Definition well_disciplined (cfg : Config) : Prop :=
  forall i p, nth_error (tasks cfg) i = Some p ->
              exists h', Disciplined (holds cfg i) p h'.

(** An executable scheduler: task [i] executes its next instruction ([r] is
    what a wait on a future answers, should that be the instruction). *)
Definition advance (i : nat) (r : WaitResult) (cfg : Config) : option Config :=
  match nth_error (tasks cfg) i with
  | Some (Gpio _ k) => Some (set_task i k cfg)
  | Some (Stdout _ k) => Some (set_task i k cfg)
  | Some (Sleep _ k) => Some (set_task i k cfg)
  | Some (Spawn _ k) => Some (set_task i k cfg)
  | Some (Acquire k) =>
      match owner cfg with
      | None => Some (set_owner (Some i) (set_task i k cfg))
      | Some _ => None
      end
  | Some (Release k) => Some (set_owner None (set_task i k cfg))
  | Some (Get k) => Some (set_task i (k (shared cfg)) cfg)
  | Some (Modify f k) => Some (set_shared (f (shared cfg)) (set_task i k cfg))
  | Some (FutureResult _ k) => Some (set_task i (k r) cfg)
  | _ => None
  end.

(** Running the tasks in the order given by [sched]. *)
Fixpoint schedule (sched : list nat) (cfg : Config) : option Config :=
  match sched with
  | [] => Some cfg
  | i :: rest =>
      match advance i WaitTimedOut cfg with
      | Some cfg' => schedule rest cfg'
      | None => None
      end
  end.

(** Two requests, [show_number(5, False)] and [set_light_flash()], and the
    moment at which the flash has passed its test of [clean_required] and
    the display holds the lock and is about to write its first bit. *)
Definition two_requests : list Request :=
  [ReqShowNumber 5 false; ReqFlash 1 None true].

Definition display_writing : Config :=
  match schedule [1; 0; 0; 0; 0]%nat (initial two_requests fresh) with
  | Some cfg => cfg
  | None => initial two_requests fresh
  end.

(** ** Worlds used as concrete inputs *)

(** After [show_number(5)] on a fresh coordinator: the pattern is on the
    lines, the oscillator runs, [clean_required] is set. *)
Definition world_shown : World :=
  exec (quiet false) (show_number 5 true) world0.

(** After [show_number(5, False)]: the same without an oscillator. *)
Definition world_shown_plain : World :=
  exec (quiet false) (show_number 5 false) world0.

(** [world_shown] while some effect still reports itself active. *)
Definition world_busy : World :=
  set_coord (set_event true (coord world_shown)) world_shown.

(** An environment in which [stop_event] is set during suspension [n]. *)
Definition stop_event_at (n : nat) : Env :=
  {| interference := fun t => if Nat.eqb t n then SetStopEvent else Quiet;
     ends_in_time := false |}.

(** An environment in which [set_stop] is called on oscillator [o] during
    suspension [n]. *)
Definition set_stop_at (o n : nat) : Env :=
  {| interference := fun t => if Nat.eqb t n then SetStop o else Quiet;
     ends_in_time := false |}.

(** ** More histories and states of the effects *)

(** The pins [set_light_flash] works on. *)
Definition flash_pins (custom_pins : option (list Z)) (is_odd : bool) : list Z :=
  match custom_pins with
  | None => slice_step2 (int_of_bool (negb is_odd)) pins
  | Some custom => custom
  end.

(** One round of the flash effect: every line HIGH, 200 ms, every line LOW. *)
Definition flash_round (ps : list Z) : list Event :=
  outputs ps HIGH ++ [EvSleep 200] ++ outputs ps LOW.

(** The object [StandalonePWM(pin)] is right after [run()]. *)
Definition launched (pin : Z) : StandalonePWM :=
  {| stop_request := false; pwm := Some pin; future := Some FPending |}.

(** [breath_pwm] still refers to an oscillator whose future was cancelled
    by a forced stop. *)
Definition stale (c : LEDGPIO) : Prop :=
  exists o s, breath_pwm c = Some o /\ lookup_osc c o = Some s /\
              future s = Some FCancelled.

(** After [show_number(5)], a cleanup that had to stop the oscillator by
    force, and [show_number(3, False)]. *)
Definition world_wedged : World :=
  exec (quiet false) (show_number 5 true ;; clean_number ;; show_number 3 false)
    world0.

(** The events of a history that come after its [n]-th suspension. *)
Fixpoint after_suspensions (n : nat) (evs : list Event) : list Event :=
  match evs with
  | [] => []
  | e :: r =>
      match n with
      | O => evs
      | S m => if is_sleep e then after_suspensions m r else after_suspensions n r
      end
  end.

Definition is_duty_change (e : Event) : bool :=
  match e with
  | EvGpio (PWM_ChangeDutyCycle _ _) => true
  | _ => false
  end.

(** The bound on the oscillator's reaction as the specification words it:
    once [set_stop] has been called, during suspension [j] of the oscillator
    (counted from 0), the loop makes at most one more ramp step, that is one
    more change of duty cycle, before it leaves. *)
Definition spec_stops_within_one_step (j : nat) (evs : list Event) : Prop :=
  (List.length (filter is_duty_change (after_suspensions (S j) evs)) <= 1)%nat.

(** Requests together with [close], as programs. *)
Inductive Operation :=
| OpRequest (r : Request)
| OpClose.

Definition operation (op : Operation) : Prog unit :=
  match op with
  | OpRequest r => program r
  | OpClose => close
  end.

(** ** The command line and the HTTP handlers ([api_server.py]) *)

(** [l.index(x)]; [None] stands for [ValueError]. *)
Fixpoint index (x : string) (l : list string) : option nat :=
  match l with
  | [] => None
  | y :: r => if String.eqb y x then Some O else option_map S (index x r)
  end.

(** [get_argument(arg, default)], with [sys.argv] as a parameter. *)
Definition get_argument (argv : list string) (arg : string)
  (default : option string) : option string :=
  match index arg argv with
  | Some i =>
      match nth_error argv (i + 1) with
      | Some v => Some v
      | None => default
      end
  | None => default
  end.

(** The body of [json_response]: [dict(status=200)] or
    [dict(reason='Check your value')]. *)
Inductive Payload :=
| status_200
| reason_check_your_value.

Record Response := {
  http_status : Z;
  payload : Payload
}.

(** [web.json_response(data)] answers with HTTP status 200 unless [status]
    is given. *)
Definition json_response (data : Payload) (status : Arg Z) : Response :=
  {| http_status := arg_or 200 status; payload := data |}.

(** What a handler hands back: a response (and whether
    [logger.exception] was called on the way), or nothing because an
    exception that [Exn] does not name ([TypeError], [OverflowError]) left
    the handler. *)
Inductive Reply :=
| Respond (r : Response) (logged : bool)
| Unanswered.

(** [int(v)] on a value that is not an integer already. *)
Inductive IntResult :=
| IntValue (z : Z)
| IntValueError
| IntOtherError.

Section Handlers.

(** JSON values other than [null] and integers (floats, strings, booleans,
    arrays, objects), and what [int] does on them, are parameters. *)
Variable Other : Type.
Variable int_of_other : Other -> IntResult.

Inductive Json :=
| JNull
| JInt (z : Z)
| JOther (v : Other).

(** The body of a request as [Server.show_number] sees it: not JSON
    ([request.json()] raises [JSONDecodeError], a [ValueError]); JSON that is
    not an object (no [get] method); or an object, of which only the member
    [number] matters. *)
Inductive Body :=
| BodyNotJson
| BodyNotObject
| BodyObject (number : option Json).

Definition Server_light_control : Prog Reply :=
  set_light_flash 3 (Some pins) true ;;
  Ret (Respond (json_response status_200 Omitted) false).

Definition Server_breath_control : Prog Reply :=
  call_set_light_breath 0 Omitted None ;;
  Ret (Respond (json_response status_200 Omitted) false).

(** The [try] statement of [Server.show_number] on the integer [z]: the
    reply of the [except] branch, if it was taken. *)
Definition show_number_or_400 (z : Z) : Prog (option Reply) :=
  try_except (show_number z true ;; Ret None) (fun e =>
    match e with
    | ValueError =>
        Ret (Some (Respond (json_response reason_check_your_value (Passed 400)) true))
    | _ => Raise e
    end).

Definition Server_show_number (body : Body) : Prog Reply :=
  match body with
  | BodyNotJson => Raise ValueError
  | BodyNotObject => Raise AttributeError
  | BodyObject None => Ret (Respond (json_response status_200 Omitted) false)
  | BodyObject (Some JNull) => Ret (Respond (json_response status_200 Omitted) false)
  | BodyObject (Some num) =>
      match
        match num with
        | JInt z => IntValue z
        | JOther v => int_of_other v
        | JNull => IntOtherError
        end
      with
      | IntValue z =>
          r <- show_number_or_400 z ;;
          match r with
          | Some reply => Ret reply
          | None => Ret (Respond (json_response status_200 Omitted) false)
          end
      | IntValueError =>
          Ret (Respond (json_response reason_check_your_value (Passed 400)) true)
      | IntOtherError => Ret Unanswered
      end
  end.

End Handlers.

(** ** Signals and the idle loop ([Server.idle], [Server._reset_idle]) *)

(** [_idled], and whether the process has sent itself [SIGKILL]. *)
Record Idling := {
  _idled : bool;
  killed : bool
}.

Definition _reset_idle (st : Idling) : Idling :=
  if negb (_idled st) then {| _idled := _idled st; killed := true |}
  else {| _idled := false; killed := killed st |}.

(** [n] signals in a row; a killed process handles no more. *)
Fixpoint deliver (n : nat) (st : Idling) : Idling :=
  match n with
  | O => st
  | S m => if killed st then st else deliver m (_reset_idle st)
  end.

(** [while self._idled: await asyncio.sleep(1)], where [signals k] signals
    arrive during the [k]-th sleep; [None] when [fuel] runs out.  The result
    carries the number of sleeps made. *)
Fixpoint idle_loop (fuel : nat) (signals : nat -> nat) (k : nat) (st : Idling)
  : option (nat * Idling) :=
  match fuel with
  | O => None
  | S f =>
      if killed st then Some (k, st)
      else if _idled st
      then idle_loop f signals (S k) (deliver (signals k) st)
      else Some (k, st)
  end.

(** [idle()] *)
Definition idle (fuel : nat) (signals : nat -> nat) (st : Idling)
  : option (nat * Idling) :=
  idle_loop fuel signals O {| _idled := true; killed := killed st |}.

(** * Properties *)

(** ** Concrete runs *)

Example bin_5 : bin 5 = "0b101"%string.
Proof. reflexivity. Qed.

Example show_number_string_5 :
  option_map format_07 (int (slice_from 2 (bin 5))) = Some "0000101"%string.
Proof. reflexivity. Qed.

Example show_number_string_127 :
  option_map format_07 (int (slice_from 2 (bin 127))) = Some "1111111"%string.
Proof. reflexivity. Qed.

Example flash_default_pins :
  slice_step2 (int_of_bool (negb true)) pins = [17; 22; 6; 19] /\
  slice_step2 (int_of_bool (negb false)) pins = [27; 5; 13; 26].
Proof. split; reflexivity. Qed.

Example show_number_5_history :
  events_of (quiet false) (show_number 5 true) world0 =
  [EvStdout 5; EvAcquire; EvGpio (PWM 17 50); EvGpio (PWM_start 17 0);
   EvGpio (output 27 LOW); EvGpio (output 22 LOW); EvGpio (output 5 LOW);
   EvGpio (output 6 LOW); EvGpio (output 13 HIGH); EvGpio (output 19 LOW);
   EvGpio (output 26 HIGH); EvRelease].
Proof. reflexivity. Qed.

Example flash_once_history :
  events_of (quiet false) (set_light_flash 1 (Some [17; 27]) true) world0 =
  [EvAcquire; EvGpio (output 17 HIGH); EvGpio (output 27 HIGH); EvSleep 200;
   EvGpio (output 17 LOW); EvGpio (output 27 LOW); EvRelease].
Proof. reflexivity. Qed.

Example flash_stopped_after_first_round :
  events_of (stop_event_at 0) (set_light_flash 3 (Some [17]) true) world0 =
  [EvAcquire; EvGpio (output 17 HIGH); EvSleep 200; EvGpio (output 17 LOW);
   EvRelease].
Proof. reflexivity. Qed.

Example breath_last_pin_by_index_0 :
  breath_pins (Some [0]) = Some [26] /\ breath_pins (Some [9]) = None.
Proof. split; reflexivity. Qed.

Example close_after_forced_cleanup_raises :
  outcome (quiet false) (clean_number ;; close) world_shown = Raised CancelledError.
Proof. reflexivity. Qed.

Example second_request_waits_for_lock :
  run (quiet false) (set_light_flash 1 None true) (set_locked true world0) =
  (Blocked, set_locked true world0).
Proof. reflexivity. Qed.

(** ** Running composite programs *)

Lemma run_bind (A B : Type) env (p : Prog A) (k : A -> Prog B) w :
  run env (bind p k) w =
  match run env p w with
  | (Returned a, w') => run env (k a) w'
  | (Raised e, w') => (Raised e, w')
  | (Blocked, w') => (Blocked, w')
  | (Diverged, w') => (Diverged, w')
  end.
Proof.
  revert w; induction p; intros w; simpl; auto.
  - destruct (locked w); auto.
  - destruct (join env o w); auto.
Qed.

Lemma run_releasing (A : Type) env (p : Prog A) w :
  run env (releasing p) w =
  match run env p w with
  | (Returned a, w') => (Returned a, set_locked false (log EvRelease w'))
  | (Raised e, w') => (Raised e, set_locked false (log EvRelease w'))
  | other => other
  end.
Proof.
  revert w; induction p; intros w; simpl; auto.
  - destruct (locked w); auto.
  - destruct (join env o w); auto.
Qed.

Lemma run_try_except (A : Type) env (p : Prog A) (h : Exn -> Prog A) w :
  run env (try_except p h) w =
  match run env p w with
  | (Raised e, w') => run env (h e) w'
  | other => other
  end.
Proof.
  revert w; induction p; intros w; simpl; auto.
  - destruct (locked w); auto.
  - destruct (join env o w); auto.
Qed.

Lemma run_with_lock (A : Type) env (body : Prog A) w :
  locked w = false ->
  run env (with_lock body) w =
  match run env body (set_locked true (log EvAcquire w)) with
  | (Returned a, w') => (Returned a, set_locked false (log EvRelease w'))
  | (Raised e, w') => (Raised e, set_locked false (log EvRelease w'))
  | other => other
  end.
Proof.
  intros Hfree. unfold with_lock. simpl. rewrite Hfree. apply run_releasing.
Qed.

Lemma replay_app env evs1 evs2 w :
  replay env (evs1 ++ evs2) w = replay env evs2 (replay env evs1 w).
Proof. unfold replay. apply fold_left_app. Qed.

Lemma run_for_each_gpio (X : Type) env (f : X -> GpioCall) (l : list X) w :
  run env (for_each l (fun x => gpio (f x))) w =
  (Returned tt, replay env (map (fun x => EvGpio (f x)) l) w).
Proof.
  revert w; induction l as [|x l IH]; intros w; simpl; [reflexivity|].
  rewrite IH. destruct (f x); reflexivity.
Qed.

Lemma trace_replay env evs w :
  trace (replay env evs w) = rev evs ++ trace w.
Proof.
  revert w; induction evs as [|e evs IH]; intros w; [reflexivity|].
  change (replay env (e :: evs) w) with (replay env evs (apply_event env e w)).
  rewrite IH. simpl. rewrite <- app_assoc. simpl.
  destruct e; reflexivity.
Qed.

Lemma ticks_replay env evs w :
  ticks (replay env evs w) = (ticks w + sleeps evs)%nat.
Proof.
  revert w; induction evs as [|e evs IH]; intros w.
  - simpl. unfold sleeps. simpl. lia.
  - change (replay env (e :: evs) w) with (replay env evs (apply_event env e w)).
    rewrite IH. unfold sleeps. destruct e; simpl; lia.
Qed.

Lemma coord_replay env evs w :
  coord (replay env evs w) = interfere_from env (ticks w) (sleeps evs) (coord w).
Proof.
  revert w; induction evs as [|e evs IH]; intros w; [reflexivity|].
  change (replay env (e :: evs) w) with (replay env evs (apply_event env e w)).
  rewrite IH. unfold sleeps. destruct e; reflexivity.
Qed.

Lemma events_of_trace (A : Type) env (p : Prog A) w evs :
  trace (exec env p w) = rev evs ++ trace w ->
  events_of env p w = evs.
Proof.
  intros H. unfold events_of. rewrite H.
  rewrite length_app, length_rev.
  replace (List.length evs + List.length (trace w) - List.length (trace w))%nat
    with (List.length (rev evs) + 0)%nat by (rewrite length_rev; lia).
  rewrite firstn_app_2. simpl. rewrite app_nil_r. apply rev_involutive.
Qed.

(** ** The numeric display *)

Lemma in_range_enumerated (P : Z -> bool) :
  forallb P (map Z.of_nat (seq 1 127)) = true ->
  forall n, 0 < n < 128 -> P n = true.
Proof.
  intros H n Hn. rewrite forallb_forall in H. apply H.
  apply in_map_iff. exists (Z.to_nat n). split; [lia|].
  apply in_seq. lia.
Qed.

Lemma encodes_in_range n : 0 < n < 128 -> encodes n = true.
Proof. apply in_range_enumerated. vm_compute. reflexivity. Qed.

Lemma decode_levels_of n : 0 < n < 128 -> decode_levels (levels_of n) = n.
Proof.
  intros H. apply Z.eqb_eq. revert n H.
  apply (in_range_enumerated (fun n => decode_levels (levels_of n) =? n)).
  vm_compute. reflexivity.
Qed.

Lemma show_bits_program l0 l1 l2 l3 l4 l5 l6 :
  for_each (seq 0 7) (show_bit (string_of_levels [l0; l1; l2; l3; l4; l5; l6])) =
  for_each (combine display_pins [l0; l1; l2; l3; l4; l5; l6])
    (fun pl => gpio (output (fst pl) (snd pl))).
Proof. destruct l0, l1, l2, l3, l4, l5, l6; reflexivity. Qed.

Lemma levels_of_shape n :
  exists l0 l1 l2 l3 l4 l5 l6, levels_of n = [l0; l1; l2; l3; l4; l5; l6].
Proof. unfold levels_of. simpl map. repeat eexists. Qed.

Lemma show_number_run env n show_breath w :
  0 < n < 128 -> locked w = false ->
  exists w',
    run env (show_number n show_breath) w = (Returned tt, w') /\
    trace w' = rev (show_number_events n show_breath) ++ trace w /\
    locked w' = false /\
    ticks w' = ticks w /\
    event (coord w') = false /\
    clean_required (coord w') = true.
Proof.
  intros Hn Hfree.
  pose proof (encodes_in_range Hn) as Henc. unfold encodes in Henc.
  destruct (int (slice_from 2 (bin n))) as [digits|] eqn:Hint; [|discriminate].
  apply String.eqb_eq in Henc.
  unfold show_number.
  assert (Hguard : negb ((128 >? n) && (n >? 0)) = false).
  { apply negb_false_iff, andb_true_iff. split; apply Z.gtb_lt; lia. }
  rewrite run_bind. change (run env (print n) w) with (Returned tt, log (EvStdout n) w).
  cbv beta iota. rewrite Hguard.
  rewrite run_with_lock by assumption.
  rewrite Hint. cbv zeta. rewrite Henc.
  unfold show_number_events, pattern_writes.
  destruct (levels_of_shape n) as (l0 & l1 & l2 & l3 & l4 & l5 & l6 & Hl).
  rewrite Hl, show_bits_program.
  destruct show_breath; simpl; eexists; repeat split.
Qed.

Lemma read_display_after_pattern n pre tr :
  read_display (rev (pre ++ pattern_writes n ++ [EvRelease]) ++ tr) = levels_of n.
Proof.
  unfold pattern_writes.
  destruct (levels_of_shape n) as (l0 & l1 & l2 & l3 & l4 & l5 & l6 & Hl).
  rewrite Hl, !rev_app_distr. reflexivity.
Qed.

(** C1. For every [n] with [0 < n < 128], [show_number(n)] returns having
    written to the seven display lines, in order, the bits of [n] from bit 6
    down to bit 0 (HIGH for a 1, LOW for a 0); the levels then read on those
    lines are that pattern, and read as a binary number they give [n]. *)
Theorem show_number_round_trip env n show_breath w :
  0 < n < 128 -> locked w = false ->
  outcome env (show_number n show_breath) w = Returned tt /\
  events_of env (show_number n show_breath) w = show_number_events n show_breath /\
  read_display (trace (exec env (show_number n show_breath) w)) = levels_of n /\
  decode_levels (read_display (trace (exec env (show_number n show_breath) w))) = n.
Proof.
  intros Hn Hfree.
  destruct (show_number_run env show_breath w Hn Hfree)
    as (w' & Hrun & Htrace & _).
  unfold outcome, exec. rewrite Hrun. simpl fst. simpl snd.
  assert (Hread : read_display (trace w') = levels_of n).
  { rewrite Htrace. unfold show_number_events.
    rewrite (app_assoc [EvStdout n; EvAcquire]).
    apply read_display_after_pattern. }
  repeat split.
  - apply events_of_trace. unfold exec. rewrite Hrun. exact Htrace.
  - exact Hread.
  - rewrite Hread. apply decode_levels_of, Hn.
Qed.

Lemma show_number_round_trip_witness :
  (0 < 5 < 128 /\ locked world0 = false) /\
  outcome (quiet false) (show_number 5 true) world0 = Returned tt /\
  events_of (quiet false) (show_number 5 true) world0 = show_number_events 5 true /\
  read_display (trace (exec (quiet false) (show_number 5 true) world0)) = levels_of 5 /\
  decode_levels (read_display (trace (exec (quiet false) (show_number 5 true) world0))) = 5.
Proof.
  split; [split; [lia | reflexivity]|].
  apply (@show_number_round_trip (quiet false) 5 true world0); [lia | reflexivity].
Defined.

(** C3. For every [n <= 0] or [n >= 128], [show_number(n)] raises
    [ValueError] having only echoed [n] on stdout: no driver call is made, so
    every line keeps its level and PWM state; the coordinator's fields (the
    oscillator reference, the oscillators, [clean_required], the events) and
    the lock are as before the call. *)
Theorem show_number_rejects_out_of_range env number show_breath w :
  number <= 0 \/ number >= 128 ->
  outcome env (show_number number show_breath) w = Raised ValueError /\
  events_of env (show_number number show_breath) w = [EvStdout number] /\
  (forall pin,
     line_level (trace (exec env (show_number number show_breath) w)) pin =
       line_level (trace w) pin /\
     line_pwm (trace (exec env (show_number number show_breath) w)) pin =
       line_pwm (trace w) pin) /\
  coord (exec env (show_number number show_breath) w) = coord w /\
  locked (exec env (show_number number show_breath) w) = locked w.
Proof.
  intros Hn.
  assert (Hrun : run env (show_number number show_breath) w =
                 (Raised ValueError, log (EvStdout number) w)).
  { unfold show_number. rewrite run_bind.
    change (run env (print number) w) with (Returned tt, log (EvStdout number) w).
    cbv beta iota.
    replace (negb ((128 >? number) && (number >? 0))) with true; [reflexivity|].
    symmetry. apply negb_true_iff, andb_false_iff.
    destruct Hn; [right | left]; rewrite Z.gtb_ltb; apply Z.ltb_ge; lia. }
  unfold outcome, exec. rewrite Hrun. simpl.
  repeat split.
  apply events_of_trace. unfold exec. rewrite Hrun. reflexivity.
Qed.

Lemma show_number_rejects_out_of_range_witness :
  (128 <= 0 \/ 128 >= 128) /\
  outcome (quiet false) (show_number 128 true) world_shown = Raised ValueError /\
  events_of (quiet false) (show_number 128 true) world_shown = [EvStdout 128] /\
  (forall pin,
     line_level (trace (exec (quiet false) (show_number 128 true) world_shown)) pin =
       line_level (trace world_shown) pin /\
     line_pwm (trace (exec (quiet false) (show_number 128 true) world_shown)) pin =
       line_pwm (trace world_shown) pin) /\
  coord (exec (quiet false) (show_number 128 true) world_shown) = coord world_shown /\
  locked (exec (quiet false) (show_number 128 true) world_shown) = locked world_shown.
Proof.
  split; [right; lia|].
  apply (@show_number_rejects_out_of_range (quiet false) 128 true world_shown).
  right. lia.
Defined.

(** ** Histories only grow *)

Lemma join_extends_trace env o w :
  exists evs, trace (snd (join env o w)) = evs ++ trace w.
Proof.
  unfold join.
  destruct (lookup_osc (coord w) o) as [s|]; [|exists []; reflexivity].
  destruct (future s) as [[| |]|]; try (exists []; reflexivity).
  destruct (stop_request s && ends_in_time env); [|exists []; reflexivity].
  unfold oscillator_exit. destruct (pwm s) as [p|].
  - exists [EvGpio (PWM_stop p)]. reflexivity.
  - exists []. reflexivity.
Qed.

Lemma run_extends_trace (A : Type) env (p : Prog A) w :
  exists evs, trace (snd (run env p w)) = rev evs ++ trace w.
Proof.
  revert w; induction p as [a|e| |c k IH|n k IH|ms k IH|k IH|k IH|k IH|f k IH|o k IH|o k IH];
    intros w; simpl;
    try (exists []; reflexivity).
  - destruct (IH (log (EvGpio c) w)) as [evs H]. exists (EvGpio c :: evs).
    rewrite H. simpl. rewrite <- app_assoc. reflexivity.
  - destruct (IH (log (EvStdout n) w)) as [evs H]. exists (EvStdout n :: evs).
    rewrite H. simpl. rewrite <- app_assoc. reflexivity.
  - destruct (IH (suspend env ms w)) as [evs H]. exists (EvSleep ms :: evs).
    rewrite H. simpl. rewrite <- app_assoc. reflexivity.
  - destruct (locked w); [exists []; reflexivity|].
    destruct (IH (set_locked true (log EvAcquire w))) as [evs H].
    exists (EvAcquire :: evs). rewrite H. simpl. rewrite <- app_assoc. reflexivity.
  - destruct (IH (set_locked false (log EvRelease w))) as [evs H].
    exists (EvRelease :: evs). rewrite H. simpl. rewrite <- app_assoc. reflexivity.
  - apply IH.
  - apply (IH (set_coord (f (coord w)) w)).
  - destruct (join_extends_trace env o w) as [evs1 H1].
    destruct (join env o w) as [r w1]. simpl in H1.
    destruct (IH r w1) as [evs H]. exists (rev evs1 ++ evs).
    rewrite H, H1, rev_app_distr, rev_involutive, <- app_assoc. reflexivity.
  - apply IH.
Qed.

Lemma events_of_spec (A : Type) env (p : Prog A) w :
  trace (exec env p w) = rev (events_of env p w) ++ trace w.
Proof.
  destruct (run_extends_trace env p w) as [evs H].
  fold (exec env p w) in H. rewrite (@events_of_trace _ env p w evs H). exact H.
Qed.

(** ** Objects on the heap *)

Lemma nth_error_update_nth (A : Type) (f : A -> A) (l : list A) (n : nat) :
  nth_error (update_nth n f l) n = option_map f (nth_error l n).
Proof.
  revert n; induction l as [|x l IH]; intros [|n]; simpl; auto.
Qed.

Lemma lookup_update_osc c o f :
  lookup_osc (update_osc o f c) o = option_map f (lookup_osc c o).
Proof. unfold lookup_osc, update_osc. simpl. apply nth_error_update_nth. Qed.

(** ** Cleanup *)

Lemma clean_number_unfold env w :
  locked w = false ->
  run env clean_number w =
  match run env reconcile_part (set_locked true (log EvAcquire w)) with
  | (Returned _, w1) =>
      (Returned tt,
       set_locked false (log EvRelease
         (set_coord (set_clean_required false (coord (replay env (outputs pins LOW) w1)))
            (replay env (outputs pins LOW) w1))))
  | (Raised e, w1) => (Raised e, set_locked false (log EvRelease w1))
  | other => other
  end.
Proof.
  intros Hfree. unfold clean_number. rewrite run_with_lock by assumption.
  unfold reconcile_part. rewrite !(@run_bind _ _ env get).
  change (run env get (set_locked true (log EvAcquire w)))
    with (Returned (coord w), set_locked true (log EvAcquire w)).
  cbv beta iota. rewrite run_bind.
  match goal with |- context [run env ?p ?w0] =>
    destruct (run env p w0) as [[[]|e| |] w1] end; try reflexivity.
Qed.

Arguments lookup_osc : simpl never.
Arguments update_osc : simpl never.

Lemma reconcile_forced env w o s p :
  breath_pwm (coord w) = Some o ->
  lookup_osc (coord w) o = Some s ->
  future s = Some FPending ->
  pwm s = Some p ->
  ends_in_time env = false ->
  run env reconcile_part w =
  (Returned tt,
   set_coord
     (update_osc o (set_pwm None)
        (update_osc o (set_future (Some FCancelled))
           (update_osc o (set_stop_request true) (coord w))))
     (log (EvGpio (PWM_stop p)) w)).
Proof.
  intros Hb Hs Hf Hp Henv.
  destruct s as [sr pw fu]. simpl in Hf, Hp. subst pw fu.
  unfold reconcile_part. rewrite run_bind. simpl (run env get w). cbv beta iota.
  rewrite Hb. rewrite run_bind. simpl (run env (set_stop o) w). cbv beta iota.
  rewrite run_try_except.
  unfold future_result. rewrite run_bind. simpl (run env get _). cbv beta iota.
  simpl coord. rewrite lookup_update_osc, Hs. simpl.
  unfold join. simpl coord. rewrite lookup_update_osc, Hs. simpl. rewrite Henv. simpl.
  rewrite lookup_update_osc, Hs. simpl.
  rewrite !lookup_update_osc, Hs. simpl.
  reflexivity.
Qed.

(** C4. When the outstanding oscillator is still running and does not end
    within the wait of [future.result(1)], [clean_number] still returns
    normally: the [TimeoutError] is caught, the future is cancelled and PWM
    on the oscillator's line is stopped by the caller; afterwards every line,
    the oscillator's included, reads LOW and [clean_required] is clear. *)
Theorem cleanup_forced_stop env w o s p :
  locked w = false ->
  breath_pwm (coord w) = Some o ->
  lookup_osc (coord w) o = Some s ->
  future s = Some FPending ->
  pwm s = Some p ->
  In p pins ->
  (forall q, In q pins -> q <> p -> line_pwm (trace w) q = None) ->
  ends_in_time env = false ->
  outcome env clean_number w = Returned tt /\
  events_of env clean_number w = forced_cleanup_events p /\
  lookup_osc (coord (exec env clean_number w)) o =
    Some {| stop_request := true; pwm := None; future := Some FCancelled |} /\
  (forall q, In q pins -> reads_low (trace (exec env clean_number w)) q) /\
  clean_required (coord (exec env clean_number w)) = false /\
  locked (exec env clean_number w) = false.
Proof.
  intros Hfree Hb Hs Hf Hp Hin Hpwm Henv.
  assert (Hrun := clean_number_unfold env w Hfree).
  rewrite (@reconcile_forced env _ o s p) in Hrun by assumption.
  unfold outcome, exec. rewrite Hrun. simpl fst. simpl snd.
  split; [reflexivity|].
  split; [apply events_of_trace; unfold exec; rewrite Hrun; reflexivity|].
  split.
  { simpl.
    change (lookup_osc (set_clean_required false ?c) o) with (lookup_osc c o).
    rewrite !lookup_update_osc, Hs.
    destruct s as [sr pw fu]. simpl in *. reflexivity. }
  split; [|split; reflexivity].
  intros q Hq. split.
  - simpl in Hq. simpl.
    repeat (destruct Hq as [Hq|Hq]; [subst q; reflexivity|]). contradiction.
  - simpl in Hq. simpl.
    destruct (Z.eqb_spec p q) as [Heq|Hne]; [reflexivity|].
    apply Hpwm; [|congruence].
    simpl. tauto.
Qed.

Lemma cleanup_forced_stop_witness :
  outcome (quiet false) clean_number world_shown = Returned tt /\
  events_of (quiet false) clean_number world_shown = forced_cleanup_events 17 /\
  lookup_osc (coord (exec (quiet false) clean_number world_shown)) 0 =
    Some {| stop_request := true; pwm := None; future := Some FCancelled |} /\
  (forall q, In q pins -> reads_low (trace (exec (quiet false) clean_number world_shown)) q) /\
  clean_required (coord (exec (quiet false) clean_number world_shown)) = false /\
  locked (exec (quiet false) clean_number world_shown) = false.
Proof.
  apply (@cleanup_forced_stop (quiet false) world_shown 0%nat
           {| stop_request := false; pwm := Some 17; future := Some FPending |} 17);
    try reflexivity.
  - simpl. tauto.
  - intros q Hq Hne. simpl in Hq.
    repeat (destruct Hq as [Hq|Hq]; [subst q; try reflexivity; congruence|]).
    contradiction.
Defined.

Lemma reconcile_returns env w :
  reconcilable (coord w) ->
  exists w1, run env reconcile_part w = (Returned tt, w1).
Proof.
  unfold reconcilable, reconcile_part. intros Hrec.
  rewrite run_bind. simpl (run env get w). cbv beta iota.
  destruct (breath_pwm (coord w)) as [o|]; [|eexists; reflexivity].
  destruct Hrec as ([sr pw fu] & Hs & Hf). simpl in Hf.
  rewrite run_bind. simpl (run env (set_stop o) w). cbv beta iota.
  rewrite run_try_except.
  unfold future_result. rewrite run_bind. simpl (run env get _). cbv beta iota.
  simpl coord. rewrite lookup_update_osc, Hs.
  destruct Hf as [Hf|Hf]; subst fu; simpl.
  - unfold join. simpl coord. rewrite lookup_update_osc, Hs. simpl.
    destruct (ends_in_time env); simpl; [eexists; reflexivity|].
    rewrite lookup_update_osc, Hs. simpl.
    rewrite !lookup_update_osc, Hs. simpl.
    destruct pw; simpl; eexists; reflexivity.
  - unfold join. simpl coord. rewrite lookup_update_osc, Hs. simpl.
    eexists; reflexivity.
Qed.

Lemma clean_number_returned env w w' :
  locked w = false ->
  run env clean_number w = (Returned tt, w') ->
  exists pre,
    trace w' = rev (EvAcquire :: pre ++ outputs pins LOW ++ [EvRelease]) ++ trace w /\
    clean_required (coord w') = false /\
    locked w' = false.
Proof.
  intros Hfree Hrun. rewrite clean_number_unfold in Hrun by assumption.
  destruct (run_extends_trace env reconcile_part (set_locked true (log EvAcquire w)))
    as [pre Hpre].
  destruct (run env reconcile_part (set_locked true (log EvAcquire w)))
    as [[[]|e| |] w1]; try discriminate.
  injection Hrun as <-. exists pre. simpl in Hpre. simpl. rewrite Hpre.
  repeat split.
  rewrite !rev_app_distr. simpl. rewrite <- !app_assoc. reflexivity.
Qed.

Lemma clean_number_returns env w :
  locked w = false -> reconcilable (coord w) ->
  outcome env clean_number w = Returned tt.
Proof.
  intros Hfree Hrec. unfold outcome. rewrite clean_number_unfold by assumption.
  destruct (@reconcile_returns env (set_locked true (log EvAcquire w)) Hrec)
    as [w1 ->].
  reflexivity.
Qed.

Lemma close_unfold env w :
  run env close w =
  if event (coord w) then (Raised RuntimeError, w)
  else match run env clean_number w with
       | (Returned _, w1) => (Returned tt, log (EvGpio cleanup) w1)
       | other => other
       end.
Proof.
  unfold close. rewrite run_bind. simpl (run env get w). cbv beta iota.
  destruct (event (coord w)); [reflexivity|].
  unfold event_object_truth. rewrite run_bind.
  destruct (run env clean_number w) as [[[]|e| |] w1]; reflexivity.
Qed.

(** When no effect is active and the oscillator that [breath_pwm] refers
    to, if any, can be waited for, [close] returns: its history is that of
    the cleanup (ending with every line driven LOW) followed by the release
    of the driver, and [clean_required] ends clear. *)
Lemma close_cleans_then_releases env w :
  event (coord w) = false -> locked w = false -> reconcilable (coord w) ->
  outcome env close w = Returned tt /\
  events_of env close w = events_of env clean_number w ++ [EvGpio cleanup] /\
  (exists pre, events_of env clean_number w =
               EvAcquire :: pre ++ outputs pins LOW ++ [EvRelease]) /\
  (forall q, In q pins -> line_level (trace (exec env clean_number w)) q = LOW) /\
  clean_required (coord (exec env close w)) = false.
Proof.
  intros He Hfree Hrec.
  pose proof (clean_number_returns env w Hfree Hrec) as Hret.
  unfold outcome in Hret.
  destruct (run env clean_number w) as [r w1] eqn:Hrun. simpl in Hret. subst r.
  destruct (clean_number_returned env w Hfree Hrun) as (pre & Htr & Hclean & _).
  assert (Hclose : run env close w = (Returned tt, log (EvGpio cleanup) w1)).
  { rewrite close_unfold, He, Hrun. reflexivity. }
  assert (Hev : events_of env clean_number w =
                EvAcquire :: pre ++ outputs pins LOW ++ [EvRelease]).
  { apply events_of_trace. unfold exec. rewrite Hrun. exact Htr. }
  unfold outcome, exec. rewrite Hclose, Hrun. simpl fst. simpl snd.
  repeat split.
  + apply events_of_trace. unfold exec. rewrite Hclose. simpl.
    rewrite Htr, Hev. rewrite rev_app_distr. reflexivity.
  + exists pre. exact Hev.
  + intros q Hq. rewrite Htr. simpl in Hq.
    change (EvAcquire :: pre ++ outputs pins LOW ++ [EvRelease])
      with ((EvAcquire :: pre) ++ outputs pins LOW ++ [EvRelease]).
    rewrite !rev_app_distr. simpl.
    repeat (destruct Hq as [Hq|Hq]; [subst q; reflexivity|]). contradiction.
  + exact Hclean.
Qed.

(** ** Cleanup on entry of the flash and breath effects *)

Lemma flash_cleans_first env times ps w :
  run env (_set_light_flash_num times ps) w =
  if clean_required (coord w) then
    match run env clean_number w with
    | (Returned _, w1) => run env (flash_critical_section times ps) w1
    | other => other
    end
  else run env (flash_critical_section times ps) w.
Proof.
  unfold _set_light_flash_num. rewrite run_bind. simpl (run env get w).
  cbv beta iota. rewrite run_bind.
  destruct (clean_required (coord w)); [|reflexivity].
  destruct (run env clean_number w) as [[[]|e| |] w1]; reflexivity.
Qed.

Lemma comprehension_select env xs w :
  run env
    (comprehension xs (fun x =>
       match list_index pins (x - 1) with
       | Some p => Ret p
       | None => Raise IndexError
       end)) w =
  match select_pins xs with
  | Some ps => (Returned ps, w)
  | None => (Raised IndexError, w)
  end.
Proof.
  induction xs as [|x xs IH]; [reflexivity|].
  simpl. rewrite run_bind.
  destruct (list_index pins (x - 1)) as [p|]; simpl; [|reflexivity].
  rewrite run_bind, IH.
  destruct (select_pins xs); reflexivity.
Qed.

Lemma breath_cleans_first env fuel times pins_arg w :
  run env (set_light_breath fuel times pins_arg) w =
  match breath_pins pins_arg with
  | None => (Raised IndexError, w)
  | Some ps =>
      if clean_required (coord w) then
        match run env clean_number w with
        | (Returned _, w1) => run env (breath_critical_section fuel times ps) w1
        | other => other
        end
      else run env (breath_critical_section fuel times ps) w
  end.
Proof.
  unfold set_light_breath. rewrite run_bind.
  assert (Hpins :
    run env
      match pins_arg with
      | Some xs =>
          comprehension xs (fun x =>
            match list_index pins (x - 1) with
            | Some p => Ret p
            | None => Raise IndexError
            end)
      | None => Ret pins
      end w =
    match breath_pins pins_arg with
    | Some ps => (Returned ps, w)
    | None => (Raised IndexError, w)
    end).
  { destruct pins_arg as [xs|]; [apply comprehension_select | reflexivity]. }
  rewrite Hpins. destruct (breath_pins pins_arg) as [ps|]; [|reflexivity].
  rewrite run_bind. simpl (run env get w). cbv beta iota. rewrite run_bind.
  destruct (clean_required (coord w)); [|reflexivity].
  destruct (run env clean_number w) as [[[]|e| |] w1]; reflexivity.
Qed.

Lemma flash_section_nothing_to_do env times ps w :
  times <= 0 -> locked w = false ->
  run env (flash_critical_section times ps) w = (Returned tt, idle_pass w).
Proof.
  intros Ht Hfree. unfold flash_critical_section.
  rewrite run_with_lock by assumption.
  replace (Z.to_nat times) with O by lia. reflexivity.
Qed.

(** C10, amended. For [times <= 0], [set_light_flash] makes no line write
    of its own: with [clean_required] clear it returns having only taken and
    released the lock; with [clean_required] set it first runs
    [clean_number] (which drives the lines LOW), then, if that returned,
    takes and releases the lock and returns. *)
Theorem flash_nonpositive_times env times custom_pins is_odd w :
  times <= 0 -> locked w = false ->
  (clean_required (coord w) = false ->
     outcome env (set_light_flash times custom_pins is_odd) w = Returned tt /\
     events_of env (set_light_flash times custom_pins is_odd) w =
       [EvAcquire; EvRelease] /\
     locked (exec env (set_light_flash times custom_pins is_odd) w) = false) /\
  (clean_required (coord w) = true ->
     (outcome env clean_number w = Returned tt ->
        outcome env (set_light_flash times custom_pins is_odd) w = Returned tt /\
        events_of env (set_light_flash times custom_pins is_odd) w =
          events_of env clean_number w ++ [EvAcquire; EvRelease] /\
        locked (exec env (set_light_flash times custom_pins is_odd) w) = false) /\
     (outcome env clean_number w <> Returned tt ->
        run env (set_light_flash times custom_pins is_odd) w =
        run env clean_number w)).
Proof.
  intros Ht Hfree. unfold set_light_flash.
  set (ps := match custom_pins with
             | Some custom => custom
             | None => slice_step2 (int_of_bool (negb is_odd)) pins
             end).
  pose proof (flash_cleans_first env times ps w) as Hrun.
  split; [|intros Hc; split].
  - intros Hc. rewrite Hc in Hrun.
    rewrite flash_section_nothing_to_do in Hrun by assumption.
    unfold outcome, exec. rewrite Hrun. repeat split.
    apply events_of_trace. unfold exec. rewrite Hrun. reflexivity.
  - intros Hret. rewrite Hc in Hrun. unfold outcome in Hret.
    destruct (run env clean_number w) as [r w1] eqn:Hclean. simpl in Hret. subst r.
    destruct (clean_number_returned env w Hfree Hclean) as (pre & Htr & _ & Hfree1).
    rewrite flash_section_nothing_to_do in Hrun by assumption.
    unfold outcome, exec. rewrite Hrun. repeat split.
    apply events_of_trace. unfold exec. rewrite Hrun. simpl.
    rewrite (@events_of_trace _ env clean_number w _ ltac:(unfold exec; rewrite Hclean; exact Htr)).
    rewrite Htr. rewrite (rev_app_distr _ [EvAcquire; EvRelease]). reflexivity.
  - intros Hret. rewrite Hc in Hrun. rewrite Hrun. unfold outcome in Hret.
    destruct (run env clean_number w) as [[[]|e| |] w1]; try reflexivity.
    exfalso. apply Hret. reflexivity.
Qed.

Lemma flash_nonpositive_times_witness :
  outcome (quiet false) (set_light_flash (-1) None true) world0 = Returned tt /\
  events_of (quiet false) (set_light_flash (-1) None true) world0 =
    [EvAcquire; EvRelease].
Proof.
  destruct (@flash_nonpositive_times (quiet false) (-1) None true world0) as [H _];
    [lia | reflexivity |].
  destruct (H eq_refl) as (H1 & H2 & _). split; assumption.
Defined.

(** C10 as stated fails when [clean_required] is set on entry: after
    [show_number(5, False)], [set_light_flash(0)] returns, but the call has
    written LOW to each of the eight lines. *)
Lemma flash_zero_times_writes_lines :
  0 <= 0 /\
  outcome (quiet false) (set_light_flash 0 None true) world_shown_plain = Returned tt /\
  filter is_line_write
    (events_of (quiet false) (set_light_flash 0 None true) world_shown_plain) =
    outputs pins LOW /\
  filter is_line_write
    (events_of (quiet false) (set_light_flash 0 None true) world_shown_plain) <> [].
Proof.
  split; [lia|]. split; [reflexivity|]. split; [reflexivity|].
  vm_compute. discriminate.
Qed.

(** C2 at the failing input: [show_number(3)] called when
    [clean_required] is set by an earlier [show_number(5)].  No cleanup
    takes place: the history of the call is that of a display on a clean
    coordinator (it starts a second PWM on line 17 and writes the new
    pattern), the first oscillator is neither asked to stop nor waited for,
    and the coordinator no longer refers to it. *)
Theorem show_number_skips_cleanup :
  clean_required (coord world_shown) = true /\
  outcome (quiet false) (show_number 3 true) world_shown = Returned tt /\
  events_of (quiet false) (show_number 3 true) world_shown =
    show_number_events 3 true /\
  lookup_osc (coord (exec (quiet false) (show_number 3 true) world_shown)) 0 =
    Some {| stop_request := false; pwm := Some 17; future := Some FPending |} /\
  breath_pwm (coord (exec (quiet false) (show_number 3 true) world_shown)) =
    Some 1%nat.
Proof. repeat split. Qed.

(** ** The breath effect *)

Lemma ramp_run env pwms ms dcs w :
  run env
    (for_each dcs (fun dc =>
       for_each pwms (fun pwm => gpio (PWM_ChangeDutyCycle pwm (dc * 10))) ;;
       sleep ms)) w =
  (Returned tt, replay env (ramp pwms ms (map (fun dc => dc * 10) dcs)) w).
Proof.
  revert w; induction dcs as [|dc dcs IH]; intros w; [reflexivity|].
  simpl for_each. rewrite !run_bind, run_for_each_gpio. simpl (run env (sleep ms) _).
  cbv beta iota. rewrite IH. f_equal.
  simpl map. unfold ramp. simpl flat_map. unfold duty_step at 2.
  rewrite !replay_app. reflexivity.
Qed.

Lemma unsafe_light_breath_run env pwms w :
  run env (_unsafe_light_breath pwms) w =
  (Returned tt, replay env (breath_events pwms) w).
Proof.
  unfold _unsafe_light_breath. rewrite run_bind, ramp_run. cbv beta iota.
  rewrite run_bind.
  change (run env (sleep 50) ?w1) with (Returned tt, suspend env 50 w1).
  cbv beta iota. rewrite ramp_run.
  change (map (fun dc => dc * 10) (range 10)) with up_steps.
  change (map (fun dc => dc * 10) (range_down 10)) with down_steps.
  unfold breath_events. rewrite !replay_app. reflexivity.
Qed.

(** C6, amended. One repetition of the breath effect returns, and its
    history is: the duty cycles 0%, 10%, ..., 90% written to every targeted
    line, each held for 50 ms (ten steps); a pause of 50 ms; then 100%, 90%,
    ..., 0%, each held for 50 ms (eleven steps). *)
Theorem breath_repetition_shape env pwms w :
  outcome env (_unsafe_light_breath pwms) w = Returned tt /\
  events_of env (_unsafe_light_breath pwms) w =
    ramp pwms 50 [0; 10; 20; 30; 40; 50; 60; 70; 80; 90] ++
    [EvSleep 50] ++
    ramp pwms 50 [100; 90; 80; 70; 60; 50; 40; 30; 20; 10; 0].
Proof.
  unfold outcome. rewrite unsafe_light_breath_run. split; [reflexivity|].
  apply events_of_trace. unfold exec. rewrite unsafe_light_breath_run.
  apply trace_replay.
Qed.

(** C6 as stated fails: on line 17 the history of a repetition is not a
    ramp from 0% to 100%, a pause, and the same steps back down; the pause
    comes after 90%, and 100% is written after it. *)
Lemma breath_repetition_not_symmetric :
  ~ spec_breath_shape [17]
      (events_of (quiet false) (_unsafe_light_breath [17]) world0).
Proof.
  intros (up & pause & Hhd & Hlast & Heq).
  change (events_of (quiet false) (_unsafe_light_breath [17]) world0)
    with (breath_events [17]) in Heq.
  cbv [breath_events ramp up_steps down_steps flat_map duty_step map app] in Heq.
  fold (@app Event) in Heq.
  do 12 (destruct up as [|? up];
    [ simpl in Hhd, Hlast, Heq; try discriminate;
      try (injection Heq; intros; subst; discriminate)
    | simpl in Heq; try discriminate; injection Heq as ? Heq; subst ]).
Qed.

(** ** Loops that poll a stop flag *)

Lemma any_tick_true P env t n :
  any_tick P env t n = true <->
  exists i, (i < n)%nat /\ P (interference env (t + i)%nat) = true.
Proof.
  revert t; induction n as [|n IH]; intros t; simpl.
  - split; [discriminate | intros (i & Hi & _); lia].
  - rewrite orb_true_iff, IH. split.
    + intros [H|(i & Hi & H)].
      * exists O. rewrite Nat.add_0_r. split; [lia | exact H].
      * exists (S i). rewrite Nat.add_succ_r. split; [lia | exact H].
    + intros ([|i] & Hi & H).
      * left. rewrite Nat.add_0_r in H. exact H.
      * right. exists i. rewrite Nat.add_succ_r in H. split; [lia | exact H].
Qed.

Lemma any_tick_false P env t n :
  any_tick P env t n = false <->
  forall i, (i < n)%nat -> P (interference env (t + i)%nat) = false.
Proof.
  split.
  - intros H i Hi. destruct (P (interference env (t + i)%nat)) eqn:E; [|reflexivity].
    assert (any_tick P env t n = true) by (apply any_tick_true; eauto).
    congruence.
  - intros H. destruct (any_tick P env t n) eqn:E; [|reflexivity].
    apply any_tick_true in E as (i & Hi & E). rewrite H in E by assumption.
    discriminate.
Qed.

Lemma turns_until_le P env k t n : (turns_until P env k t n <= n)%nat.
Proof.
  revert t; induction n as [|n IH]; intros t; simpl; [lia|].
  destruct (any_tick P env t k); [lia|]. specialize (IH (t + k)%nat). lia.
Qed.

Lemma turns_until_never P env k t n :
  (forall i, (i < k * n)%nat -> P (interference env (t + i)%nat) = false) ->
  turns_until P env k t n = n.
Proof.
  revert t; induction n as [|n IH]; intros t H; simpl; [reflexivity|].
  replace (any_tick P env t k) with false.
  - f_equal. apply IH. intros i Hi.
    replace (t + k + i)%nat with (t + (k + i))%nat by lia. apply H. lia.
  - symmetry. apply any_tick_false. intros i Hi. apply H. lia.
Qed.

Lemma turns_until_first P env k t n j :
  (0 < k)%nat ->
  (forall i, (i < j)%nat -> P (interference env (t + i)%nat) = false) ->
  P (interference env (t + j)%nat) = true ->
  turns_until P env k t n = Nat.min n (S (j / k)).
Proof.
  intros Hk. revert t j; induction n as [|n IH]; intros t j Hbefore Hat; simpl turns_until;
    [reflexivity|].
  destruct (Nat.lt_ge_cases j k) as [Hlt|Hge].
  - replace (any_tick P env t k) with true
      by (symmetry; apply any_tick_true; eauto).
    rewrite Nat.div_small by assumption. lia.
  - replace (any_tick P env t k) with false
      by (symmetry; apply any_tick_false; intros i Hi; apply Hbefore; lia).
    rewrite (IH (t + k)%nat (j - k)%nat).
    + replace j with ((j - k) + 1 * k)%nat at 2 by lia.
      rewrite Nat.div_add by lia. lia.
    + intros i Hi. replace (t + k + i)%nat with (t + (k + i))%nat by lia.
      apply Hbefore. lia.
    + replace (t + k + (j - k))%nat with (t + j)%nat by lia. exact Hat.
Qed.

Lemma stop_event_interfere_from env t n c :
  stop_event (interfere_from env t n c) =
  stop_event c || any_tick sets_stop_event env t n.
Proof.
  revert t c; induction n as [|n IH]; intros t c; simpl.
  - rewrite orb_false_r. reflexivity.
  - rewrite IH. destruct (interference env t); simpl; try reflexivity.
    rewrite orb_true_r. reflexivity.
Qed.

Section PollingLoops.

Variable env : Env.
Variable body : Prog unit.
Variable evs : list Event.
Hypothesis body_run : forall w, run env body w = (Returned tt, replay env evs w).

Lemma repeat_stopped n w :
  stop_event (coord w) = true ->
  run env (repeat_until_stop n body) w = (Returned tt, w).
Proof. intros H. destruct n; simpl; [|rewrite H]; reflexivity. Qed.

Lemma repeat_until_stop_run n w :
  stop_event (coord w) = false ->
  run env (repeat_until_stop n body) w =
  (Returned tt,
   replay env
     (times_over (turns_until sets_stop_event env (sleeps evs) (ticks w) n) evs) w).
Proof.
  revert w; induction n as [|n IH]; intros w Hclear; [reflexivity|].
  simpl. rewrite Hclear, run_bind, body_run.
  assert (Hstop : stop_event (coord (replay env evs w)) =
                  any_tick sets_stop_event env (ticks w) (sleeps evs)).
  { rewrite coord_replay, stop_event_interfere_from, Hclear. reflexivity. }
  destruct (any_tick sets_stop_event env (ticks w) (sleeps evs)).
  - rewrite repeat_stopped by assumption. simpl. rewrite app_nil_r. reflexivity.
  - rewrite IH by assumption. rewrite ticks_replay. simpl times_over.
    rewrite replay_app. reflexivity.
Qed.

Lemma forever_until_stop_run fuel w :
  stop_event (coord w) = false ->
  run env (forever_until_stop fuel body) w =
  let r := turns_until sets_stop_event env (sleeps evs) (ticks w) fuel in
  (if (r <? fuel)%nat then Returned tt else Diverged,
   replay env (times_over r evs) w).
Proof.
  revert w; induction fuel as [|fuel IH]; intros w Hclear; [reflexivity|].
  simpl forever_until_stop. simpl run. rewrite Hclear, run_bind, body_run.
  assert (Hstop : stop_event (coord (replay env evs w)) =
                  any_tick sets_stop_event env (ticks w) (sleeps evs)).
  { rewrite coord_replay, stop_event_interfere_from, Hclear. reflexivity. }
  simpl turns_until.
  destruct (any_tick sets_stop_event env (ticks w) (sleeps evs)).
  - cbv zeta. simpl times_over. rewrite app_nil_r.
    destruct fuel as [|fuel]; simpl; [reflexivity|].
    rewrite Hstop. reflexivity.
  - rewrite IH by assumption. cbv zeta. rewrite ticks_replay.
    simpl times_over. rewrite replay_app.
    change (S ?a <? S ?b)%nat with (a <? b)%nat. reflexivity.
Qed.

End PollingLoops.

(** ** The loop of the breath effect *)

Lemma sleeps_app evs1 evs2 :
  sleeps (evs1 ++ evs2) = (sleeps evs1 + sleeps evs2)%nat.
Proof. unfold sleeps. rewrite filter_app, length_app. reflexivity. Qed.

Lemma sleeps_duty_step pwms ms dc : sleeps (duty_step pwms ms dc) = 1%nat.
Proof.
  unfold duty_step. rewrite sleeps_app. unfold sleeps at 2. simpl.
  replace (sleeps (map (fun p => EvGpio (PWM_ChangeDutyCycle p dc)) pwms)) with O;
    [reflexivity|].
  unfold sleeps. induction pwms as [|p pwms IH]; simpl; auto.
Qed.

Lemma sleeps_ramp pwms ms dcs : sleeps (ramp pwms ms dcs) = List.length dcs.
Proof.
  unfold ramp. induction dcs as [|dc dcs IH]; [reflexivity|].
  simpl. rewrite sleeps_app, sleeps_duty_step, IH. reflexivity.
Qed.

Lemma sleeps_breath_turn pwms : sleeps (breath_turn pwms) = 23%nat.
Proof.
  unfold breath_turn, breath_events.
  rewrite !sleeps_app, !sleeps_ramp. reflexivity.
Qed.

Lemma breath_turn_run env pwms w :
  run env (_unsafe_light_breath pwms ;; sleep 50) w =
  (Returned tt, replay env (breath_turn pwms) w).
Proof.
  rewrite run_bind, unsafe_light_breath_run. cbv beta iota.
  unfold breath_turn. rewrite replay_app. reflexivity.
Qed.

Lemma comprehension_pwm_run env ps w :
  run env (comprehension ps (fun pin => gpio (PWM pin 50) ;; Ret pin)) w =
  (Returned ps, replay env (map (fun p => EvGpio (PWM p 50)) ps) w).
Proof.
  revert w; induction ps as [|p ps IH]; intros w; [reflexivity|].
  simpl. rewrite run_bind, IH. reflexivity.
Qed.

Lemma replay_gpio_frame (X : Type) env (f : X -> GpioCall) (l : list X) w :
  coord (replay env (map (fun x => EvGpio (f x)) l) w) = coord w /\
  ticks (replay env (map (fun x => EvGpio (f x)) l) w) = ticks w /\
  locked (replay env (map (fun x => EvGpio (f x)) l) w) = locked w.
Proof.
  revert w; induction l as [|x l IH]; intros w; [repeat split|].
  change (replay env (map (fun x => EvGpio (f x)) (x :: l)) w)
    with (replay env (map (fun x => EvGpio (f x)) l) (log (EvGpio (f x)) w)).
  destruct (IH (log (EvGpio (f x)) w)) as (H1 & H2 & H3).
  rewrite H1, H2, H3. repeat split.
Qed.

Lemma breath_section_run env fuel times ps w :
  locked w = false ->
  let n := match times with Some k => Z.to_nat k | None => fuel end in
  let r := turns_until sets_stop_event env 23 (ticks w) n in
  let returns := match times with Some _ => true | None => (r <? fuel)%nat end in
  exists w',
    run env (breath_critical_section fuel times ps) w =
      (if returns then Returned tt else Diverged, w') /\
    trace w' =
      rev (breath_prologue ps ++ times_over r (breath_turn ps) ++
           (if returns then breath_epilogue ps else [])) ++ trace w.
Proof.
  intros Hfree n r returns.
  unfold breath_critical_section.
  rewrite run_with_lock by assumption.
  rewrite run_bind.
  change (run env (modify ?f) ?w0) with (Returned tt, set_coord (f (coord w0)) w0).
  cbv beta iota. rewrite run_bind.
  change (run env (modify ?f) ?w0) with (Returned tt, set_coord (f (coord w0)) w0).
  cbv beta iota. rewrite run_bind, comprehension_pwm_run. cbv beta iota.
  rewrite run_bind, run_for_each_gpio. cbv beta iota.
  rewrite run_bind.
  match goal with |- context [run env _ ?w0] => set (w1 := w0) end.
  assert (Hclear : stop_event (coord w1) = false).
  { unfold w1. rewrite (proj1 (replay_gpio_frame _ _ _ _)).
    rewrite (proj1 (replay_gpio_frame _ _ _ _)). reflexivity. }
  assert (Hticks : ticks w1 = ticks w).
  { unfold w1. rewrite (proj1 (proj2 (replay_gpio_frame _ _ _ _))).
    rewrite (proj1 (proj2 (replay_gpio_frame _ _ _ _))). reflexivity. }
  assert (Htrace : trace w1 = rev (breath_prologue ps) ++ trace w).
  { unfold w1. rewrite !trace_replay. unfold breath_prologue. simpl.
    rewrite rev_app_distr, <- !app_assoc. reflexivity. }
  clearbody w1.
  destruct times as [k|].
  - rewrite (@repeat_until_stop_run env _ _ (breath_turn_run env ps)) by assumption.
    rewrite sleeps_breath_turn, Hticks. fold n r.
    rewrite run_bind, run_for_each_gpio. simpl.
    eexists. split; [reflexivity|].
    simpl. rewrite !trace_replay, Htrace.
    unfold breath_epilogue, breath_prologue. simpl.
    repeat rewrite rev_app_distr. simpl. repeat rewrite <- app_assoc.
    reflexivity.
  - rewrite (@forever_until_stop_run env _ _ (breath_turn_run env ps)) by assumption.
    rewrite sleeps_breath_turn, Hticks. cbv zeta.
    subst returns r n. destruct (_ <? fuel)%nat.
    + rewrite run_bind, run_for_each_gpio. simpl.
      eexists. split; [reflexivity|].
      simpl. rewrite !trace_replay, Htrace.
      unfold breath_epilogue, breath_prologue. simpl.
      repeat rewrite rev_app_distr. simpl. repeat rewrite <- app_assoc.
      reflexivity.
    + eexists. split; [reflexivity|].
      rewrite trace_replay, Htrace, app_nil_r, rev_app_distr, <- app_assoc.
      reflexivity.
Qed.





(** ** The oscillator *)

Lemma nth_error_update_nth_other (A : Type) (f : A -> A) (l : list A) (n m : nat) :
  n <> m -> nth_error (update_nth n f l) m = nth_error l m.
Proof.
  revert n m; induction l as [|x l IH]; intros [|n] [|m] H; simpl; auto.
  congruence.
Qed.

Lemma lookup_interfere i c o :
  lookup_osc (interfere i c) o =
  option_map
    (fun s => if sets_stop_request o i then set_stop_request true s else s)
    (lookup_osc c o).
Proof.
  destruct i as [| |o']; simpl.
  - destruct (lookup_osc c o); reflexivity.
  - unfold lookup_osc. simpl. destruct (nth_error (heap c) o); reflexivity.
  - destruct (Nat.eqb_spec o' o) as [->|Hne].
    + apply lookup_update_osc.
    + unfold lookup_osc, update_osc. simpl.
      rewrite nth_error_update_nth_other by assumption.
      destruct (nth_error (heap c) o); reflexivity.
Qed.

Lemma osc_pwm_interfere_from env t n c o :
  osc_pwm (interfere_from env t n c) o = osc_pwm c o.
Proof.
  revert t c; induction n as [|n IH]; intros t c; simpl; [reflexivity|].
  rewrite IH. unfold osc_pwm. rewrite lookup_interfere.
  destruct (lookup_osc c o) as [s|]; simpl; [|reflexivity].
  destruct (sets_stop_request o (interference env t)); reflexivity.
Qed.

Lemma osc_stop_request_interfere_from env t n c o :
  lookup_osc c o <> None ->
  osc_stop_request (interfere_from env t n c) o =
  osc_stop_request c o || any_tick (sets_stop_request o) env t n.
Proof.
  revert t c; induction n as [|n IH]; intros t c Hsome; simpl.
  - rewrite orb_false_r. reflexivity.
  - rewrite IH.
    + unfold osc_stop_request. rewrite lookup_interfere.
      destruct (lookup_osc c o) as [s|]; [|congruence]. simpl.
      destruct (sets_stop_request o (interference env t)); simpl.
      * rewrite orb_true_r. reflexivity.
      * reflexivity.
    + rewrite lookup_interfere. destruct (lookup_osc c o); [discriminate|congruence].
Qed.

Lemma osc_pwm_replay env evs w o :
  osc_pwm (coord (replay env evs w)) o = osc_pwm (coord w) o.
Proof. rewrite coord_replay. apply osc_pwm_interfere_from. Qed.

Lemma osc_duty_run env o dc ms w p :
  osc_pwm (coord w) o = Some p ->
  run env (self_pwm_ChangeDutyCycle o dc ;; sleep ms) w =
  (Returned tt, replay env (duty_step [p] ms dc) w).
Proof.
  unfold osc_pwm. intros Hp.
  rewrite run_bind. unfold self_pwm_ChangeDutyCycle.
  rewrite run_bind. simpl (run env get w). cbv beta iota.
  destruct (lookup_osc (coord w) o) as [[sr pw fu]|]; [|discriminate].
  simpl in Hp. subst pw. reflexivity.
Qed.

Lemma osc_ramp_run env o p dcs w :
  osc_pwm (coord w) o = Some p ->
  run env
    (for_each dcs (fun dc => self_pwm_ChangeDutyCycle o (dc * 10) ;; sleep 200)) w =
  (Returned tt, replay env (ramp [p] 200 (map (fun dc => dc * 10) dcs)) w).
Proof.
  revert w; induction dcs as [|dc dcs IH]; intros w Hp; [reflexivity|].
  cbn [for_each]. rewrite run_bind, (osc_duty_run env o (dc * 10) 200 w Hp).
  cbv beta iota. rewrite IH by (rewrite osc_pwm_replay; exact Hp).
  reflexivity.
Qed.

Lemma runnable_body_run env o p w :
  osc_pwm (coord w) o = Some p ->
  run env (runnable_body o) w = (Returned tt, replay env (oscillator_turn p) w).
Proof.
  intros Hp. unfold runnable_body.
  rewrite run_bind, (osc_ramp_run env o (range 10) w Hp). cbv beta iota.
  change (map (fun dc => dc * 10) (range 10)) with up_steps.
  rewrite run_bind.
  change (run env (sleep 1000) ?w1) with (Returned tt, suspend env 1000 w1).
  cbv beta iota. rewrite run_bind.
  rewrite (@osc_ramp_run env o p (range_down 10)).
  - change (map (fun dc => dc * 10) (range_down 10)) with down_steps.
    cbv beta iota.
    change (run env (sleep 1000) ?w1) with (Returned tt, suspend env 1000 w1).
    unfold oscillator_turn. rewrite !replay_app. reflexivity.
  - change (suspend env 1000 ?w1) with (replay env [EvSleep 1000] w1).
    rewrite !osc_pwm_replay. exact Hp.
Qed.

Lemma sleeps_oscillator_turn p : sleeps (oscillator_turn p) = 23%nat.
Proof.
  unfold oscillator_turn. rewrite !sleeps_app, !sleeps_ramp. reflexivity.
Qed.

Lemma runnable_exit env o p fuel w :
  osc_pwm (coord w) o = Some p ->
  osc_stop_request (coord w) o = true ->
  run env (runnable (S fuel) o) w =
  (Returned tt,
   set_coord (update_osc o (set_pwm None) (coord w)) (log (EvGpio (PWM_stop p)) w)).
Proof.
  unfold osc_pwm, osc_stop_request. intros Hp Hs.
  cbn [runnable]. rewrite run_bind. simpl (run env get w). cbv beta iota.
  destruct (lookup_osc (coord w) o) as [[sr pw fu]|] eqn:Hl; [|discriminate].
  simpl in Hp, Hs. subst sr pw. cbn [negb stop_request].
  rewrite run_bind. unfold self_pwm_stop. rewrite run_bind.
  simpl (run env get w). cbv beta iota. rewrite Hl. reflexivity.
Qed.

Lemma runnable_run env o p fuel w :
  osc_pwm (coord w) o = Some p ->
  osc_stop_request (coord w) o = false ->
  let r := turns_until (sets_stop_request o) env 23 (ticks w) fuel in
  let w' := replay env (times_over r (oscillator_turn p)) w in
  run env (runnable fuel o) w =
  if (r <? fuel)%nat
  then (Returned tt,
        set_coord (update_osc o (set_pwm None) (coord w'))
          (log (EvGpio (PWM_stop p)) w'))
  else (Diverged, w').
Proof.
  revert w; induction fuel as [|fuel IH]; intros w Hp Hs; [reflexivity|].
  assert (Hsome : lookup_osc (coord w) o <> None).
  { unfold osc_pwm in Hp. destruct (lookup_osc (coord w) o); [discriminate|congruence]. }
  pose proof (runnable_body_run env o w Hp) as Hbody.
  assert (Hstop : osc_stop_request (coord (replay env (oscillator_turn p) w)) o =
                  any_tick (sets_stop_request o) env (ticks w) 23).
  { rewrite coord_replay, osc_stop_request_interfere_from by assumption.
    rewrite Hs, sleeps_oscillator_turn. reflexivity. }
  assert (Hp1 : osc_pwm (coord (replay env (oscillator_turn p) w)) o = Some p)
    by (rewrite osc_pwm_replay; exact Hp).
  assert (Hstep : run env (runnable (S fuel) o) w =
                  run env (runnable fuel o) (replay env (oscillator_turn p) w)).
  { cbn [runnable]. rewrite run_bind. simpl (run env get w). cbv beta iota.
    unfold osc_stop_request in Hs.
    destruct (lookup_osc (coord w) o) as [s|]; [|congruence].
    rewrite Hs. cbn [negb]. rewrite run_bind, Hbody. reflexivity. }
  rewrite Hstep. cbn [turns_until].
  destruct (any_tick (sets_stop_request o) env (ticks w) 23).
  - cbv zeta. cbn [times_over]. rewrite app_nil_r.
    destruct fuel as [|fuel]; [reflexivity|].
    rewrite (runnable_exit env o fuel _ Hp1 Hstop). reflexivity.
  - rewrite IH by assumption. cbv zeta.
    rewrite ticks_replay, sleeps_oscillator_turn.
    cbn [times_over]. rewrite replay_app.
    change (S ?a <? S ?b)%nat with (a <? b)%nat. reflexivity.
Qed.

Lemma osc_pwm_released c o : osc_pwm (update_osc o (set_pwm None) c) o = None.
Proof.
  unfold osc_pwm. rewrite lookup_update_osc.
  destruct (lookup_osc c o); reflexivity.
Qed.

(** C8, amended. [set_stop] sets the oscillator's stop flag and nothing
    else.  The loop of [runnable] tests the flag once per turn (a full ramp
    up, pause, ramp down, pause: 23 suspensions).  When [set_stop] is called
    before the test is first reached, no turn is made.  When another task
    first calls [set_stop] while the oscillator is in its suspension [j], the
    loop finishes the turn it is in and sees the flag at the next test,
    [22 - j mod 23] suspensions after the one of the call, so a full turn
    later at most; then it leaves: it stops PWM on its line and drops the PWM
    object. *)
Theorem oscillator_stops_at_next_check env o p w :
  osc_pwm (coord w) o = Some p ->
  (run env (set_stop o) w =
     (Returned tt, set_coord (interfere (SetStop o) (coord w)) w) /\
   osc_stop_request (coord (exec env (set_stop o) w)) o = true /\
   osc_pwm (coord (exec env (set_stop o) w)) o = Some p) /\
  (forall fuel,
     outcome env (set_stop o ;; runnable (S fuel) o) w = Returned tt /\
     events_of env (set_stop o ;; runnable (S fuel) o) w = [EvGpio (PWM_stop p)] /\
     osc_pwm (coord (exec env (set_stop o ;; runnable (S fuel) o) w)) o = None) /\
  (osc_stop_request (coord w) o = false ->
   forall j,
     (forall i, (i < j)%nat ->
        sets_stop_request o (interference env (ticks w + i)%nat) = false) ->
     interference env (ticks w + j)%nat = SetStop o ->
     forall fuel, (S (j / 23) < fuel)%nat ->
       outcome env (runnable fuel o) w = Returned tt /\
       events_of env (runnable fuel o) w =
         times_over (S (j / 23)) (oscillator_turn p) ++ [EvGpio (PWM_stop p)] /\
       osc_pwm (coord (exec env (runnable fuel o) w)) o = None /\
       ticks (exec env (runnable fuel o) w) =
         (ticks w + j + 1 + (22 - j mod 23))%nat).
Proof.
  intros Hp.
  assert (Hset : run env (set_stop o) w =
                 (Returned tt, set_coord (interfere (SetStop o) (coord w)) w))
    by reflexivity.
  assert (Hflag : osc_stop_request (interfere (SetStop o) (coord w)) o = true).
  { unfold osc_stop_request, osc_pwm in *. cbn [interfere atomically set_stop modify].
    rewrite lookup_update_osc.
    destruct (lookup_osc (coord w) o); [reflexivity | discriminate]. }
  assert (Hpwm : osc_pwm (interfere (SetStop o) (coord w)) o = Some p).
  { unfold osc_pwm in *. cbn [interfere atomically set_stop modify].
    rewrite lookup_update_osc.
    destruct (lookup_osc (coord w) o) as [[sr pw fu]|]; [exact Hp | discriminate]. }
  split; [|split].
  - unfold exec. rewrite Hset. cbn [snd coord set_coord]. auto.
  - intros fuel.
    assert (Hrun : run env (set_stop o ;; runnable (S fuel) o) w =
                   run env (runnable (S fuel) o)
                     (set_coord (interfere (SetStop o) (coord w)) w)).
    { rewrite run_bind, Hset. reflexivity. }
    rewrite (@runnable_exit env o p fuel
               (set_coord (interfere (SetStop o) (coord w)) w) Hpwm Hflag) in Hrun.
    unfold outcome, exec. rewrite Hrun. cbn [fst snd].
    split; [reflexivity|]. split.
    + apply events_of_trace. unfold exec. rewrite Hrun. reflexivity.
    + apply osc_pwm_released.
  - intros Hs j Hbefore Hat fuel Hfuel.
    assert (Hat' : sets_stop_request o (interference env (ticks w + j)%nat) = true)
      by (rewrite Hat; apply Nat.eqb_refl).
    pose proof (runnable_run env o fuel w Hp Hs) as Hrun. cbv zeta in Hrun.
    rewrite (@turns_until_first _ env 23 (ticks w) fuel j) in Hrun by (auto; lia).
    replace (Nat.min fuel (S (j / 23))) with (S (j / 23)) in Hrun by lia.
    replace (S (j / 23) <? fuel)%nat with true in Hrun
      by (symmetry; apply Nat.ltb_lt; lia).
    unfold outcome, exec. rewrite Hrun. cbn [fst snd].
    assert (Hsl : forall n, sleeps (times_over n (oscillator_turn p)) = (23 * n)%nat).
    { induction n as [|n IH]; [reflexivity|].
      cbn [times_over]. rewrite sleeps_app, sleeps_oscillator_turn, IH. lia. }
    pose proof (Nat.div_mod_eq j 23) as Hdiv.
    pose proof (Nat.mod_upper_bound j 23 ltac:(lia)) as Hmod.
    repeat split.
    + apply events_of_trace. unfold exec. rewrite Hrun.
      cbn [snd trace set_coord log]. rewrite trace_replay, rev_app_distr. reflexivity.
    + apply osc_pwm_released.
    + cbn [ticks set_coord log]. rewrite ticks_replay, Hsl. lia.
Qed.

Lemma oscillator_stops_at_next_check_witness :
  outcome (set_stop_at 0 30) (runnable 5 0) world_shown = Returned tt /\
  events_of (set_stop_at 0 30) (runnable 5 0) world_shown =
    times_over 2 (oscillator_turn 17) ++ [EvGpio (PWM_stop 17)] /\
  osc_pwm (coord (exec (set_stop_at 0 30) (runnable 5 0) world_shown)) 0 = None /\
  ticks (exec (set_stop_at 0 30) (runnable 5 0) world_shown) = 46%nat.
Proof.
  destruct (@oscillator_stops_at_next_check (set_stop_at 0 30) 0%nat 17 world_shown
              eq_refl) as (_ & _ & H).
  destruct (H eq_refl 30%nat) with (fuel := 5%nat) as (H1 & H2 & H3 & H4).
  - intros i Hi. simpl. destruct (Nat.eqb_spec i 30); [lia | reflexivity].
  - reflexivity.
  - simpl. lia.
  - repeat split; assumption.
Defined.

(** C8 as stated fails: [set_stop] is called while the oscillator of
    [show_number(5)] is in the first suspension of a turn, right after the
    first ramp step; the loop then makes twenty more ramp steps, the rest of
    the turn, before it tests the flag and leaves. *)
Lemma set_stop_not_seen_within_one_step :
  interference (set_stop_at 0 0) (ticks world_shown) = SetStop 0 /\
  outcome (set_stop_at 0 0) (runnable 3 0) world_shown = Returned tt /\
  List.length
    (filter is_duty_change
       (after_suspensions 1
          (events_of (set_stop_at 0 0) (runnable 3 0) world_shown))) = 20%nat /\
  ~ spec_stops_within_one_step 0
      (events_of (set_stop_at 0 0) (runnable 3 0) world_shown).
Proof.
  assert (H : List.length
    (filter is_duty_change
       (after_suspensions 1
          (events_of (set_stop_at 0 0) (runnable 3 0) world_shown))) = 20%nat)
    by (vm_compute; reflexivity).
  split; [reflexivity|]. split; [vm_compute; reflexivity|]. split; [exact H|].
  unfold spec_stops_within_one_step. rewrite H. lia.
Qed.

(** ** The lock discipline of the requests *)

Lemma Disciplined_bind (A B : Type) h (p : Prog A) h' (k : A -> Prog B) :
  Disciplined h p h' ->
  (forall a, Disciplined h' (k a) h') ->
  Disciplined h (bind p k) h'.
Proof.
  intros Hp Hk. induction Hp; simpl; try (constructor; auto; fail); auto.
Qed.

Lemma Disciplined_try_except (A : Type) h (p : Prog A) h' (handler : Exn -> Prog A) :
  Disciplined h p h' ->
  (forall e, Disciplined h' (handler e) h') ->
  Disciplined h (try_except p handler) h'.
Proof.
  intros Hp Hk. induction Hp; simpl; try (constructor; auto; fail); auto.
Qed.

Lemma Disciplined_releasing (A : Type) h (p : Prog A) h' :
  Disciplined h p h' -> h' = true -> Disciplined h (releasing p) false.
Proof.
  intros Hp. induction Hp; intros ->; simpl; try (constructor; auto; fail).
  - constructor. constructor.
  - constructor. constructor.
Qed.

Lemma Disciplined_with_lock (A : Type) (body : Prog A) :
  Disciplined true body true -> Disciplined false (with_lock body) false.
Proof.
  intros H. unfold with_lock. constructor.
  apply (Disciplined_releasing H). reflexivity.
Qed.

Lemma Disciplined_for_each (X : Type) h (l : list X) (body : X -> Prog unit) :
  (forall x, Disciplined h (body x) h) -> Disciplined h (for_each l body) h.
Proof.
  intros H. induction l as [|x l IH]; simpl; [constructor|].
  apply Disciplined_bind; auto.
Qed.

Lemma Disciplined_comprehension (X Y : Type) h (l : list X) (f : X -> Prog Y) :
  (forall x, Disciplined h (f x) h) -> Disciplined h (comprehension l f) h.
Proof.
  intros H. induction l as [|x l IH]; simpl; [constructor|].
  apply Disciplined_bind; auto. intros y.
  apply Disciplined_bind; auto. intros ys. constructor.
Qed.

Lemma Disciplined_gpio_held c : Disciplined true (gpio c) true.
Proof. apply D_Gpio_held. constructor. Qed.

Lemma Disciplined_modify h f : Disciplined h (modify f) h.
Proof. constructor. constructor. Qed.

Lemma Disciplined_sleep h ms : Disciplined h (sleep ms) h.
Proof. constructor. constructor. Qed.

Lemma Disciplined_get h : Disciplined h get h.
Proof. constructor. intros c. constructor. Qed.

Create HintDb discipline.
#[local] Hint Resolve Disciplined_gpio_held Disciplined_modify Disciplined_sleep
  Disciplined_get : discipline.
#[local] Hint Constructors Disciplined : discipline.

Ltac discipline :=
  repeat first
    [ solve [auto with discipline]
    | apply Disciplined_with_lock
    | apply Disciplined_bind; [|intros ?]
    | apply Disciplined_for_each; intros ?
    | apply Disciplined_comprehension; intros ?
    | apply Disciplined_try_except; [|intros ?]
    | match goal with
      | |- Disciplined _ (match ?x with _ => _ end) _ => destruct x
      end ].

Lemma Disciplined_force_stop o : Disciplined true (force_stop o) true.
Proof. unfold force_stop. discipline. Qed.

Lemma Disciplined_future_result o : Disciplined true (future_result o) true.
Proof.
  unfold future_result. discipline.
  constructor. intros []; constructor.
Qed.

#[local] Hint Resolve Disciplined_force_stop Disciplined_future_result : discipline.

Lemma Disciplined_clean_number : Disciplined false clean_number false.
Proof. unfold clean_number, set_stop. discipline. Qed.

#[local] Hint Resolve Disciplined_clean_number : discipline.

Lemma Disciplined_repeat_until_stop n body :
  Disciplined true body true -> Disciplined true (repeat_until_stop n body) true.
Proof.
  intros H. induction n as [|n IH]; simpl; [constructor|].
  constructor. intros c. destruct (stop_event c); [constructor|].
  apply Disciplined_bind; auto.
Qed.

Lemma Disciplined_forever_until_stop fuel body :
  Disciplined true body true -> Disciplined true (forever_until_stop fuel body) true.
Proof.
  intros H. induction fuel as [|fuel IH]; simpl; [constructor|].
  constructor. intros c. destruct (stop_event c); [constructor|].
  apply Disciplined_bind; auto.
Qed.

Lemma Disciplined_flash times custom_pins is_odd :
  Disciplined false (set_light_flash times custom_pins is_odd) false.
Proof.
  unfold set_light_flash, _set_light_flash_num. discipline.
  apply Disciplined_repeat_until_stop.
  unfold _unsafe_set_light_flash. discipline.
Qed.

Lemma Disciplined_breath fuel times pins_arg :
  Disciplined false (set_light_breath fuel times pins_arg) false.
Proof.
  unfold set_light_breath. discipline.
  - apply Disciplined_repeat_until_stop. unfold _unsafe_light_breath. discipline.
  - apply Disciplined_forever_until_stop. unfold _unsafe_light_breath. discipline.
Qed.

Lemma Disciplined_show_number number show_breath :
  Disciplined false (show_number number show_breath) false.
Proof.
  unfold show_number. apply Disciplined_bind.
  { unfold print. constructor. constructor. }
  intros _.
  unfold StandalonePWM_init, StandalonePWM_run, spawn, show_bit.
  discipline.
Qed.

Lemma Disciplined_program r : Disciplined false (program r) false.
Proof.
  destruct r; simpl.
  - apply Disciplined_flash.
  - apply Disciplined_breath.
  - apply Disciplined_show_number.
  - apply Disciplined_clean_number.
Qed.

(** ** Mutual exclusion of the effects *)

Lemma nth_error_set_task (l : list (Prog unit)) i j p q :
  nth_error l i = Some q ->
  nth_error (update_nth i (fun _ => p) l) j =
  if Nat.eqb i j then Some p else nth_error l j.
Proof.
  intros Hi. destruct (Nat.eqb_spec i j) as [<-|Hne].
  - rewrite nth_error_update_nth, Hi. reflexivity.
  - apply nth_error_update_nth_other. assumption.
Qed.

Lemma holds_owner cfg i : holds cfg i = true <-> owner cfg = Some i.
Proof.
  unfold holds. destruct (owner cfg) as [j|]; [|split; discriminate].
  rewrite Nat.eqb_eq. split; congruence.
Qed.

Lemma initial_disciplined reqs c : well_disciplined (initial reqs c).
Proof.
  intros i p Hp. exists false. unfold holds. simpl in *.
  apply nth_error_In, in_map_iff in Hp as (r & <- & _).
  apply Disciplined_program.
Qed.

Lemma cstep_disciplined cfg i e cfg' :
  well_disciplined cfg -> cstep cfg i e cfg' -> well_disciplined cfg'.
Proof.
  intros Hinv Hstep.
  destruct Hstep as [cfg i c k Hi|cfg i n k Hi|cfg i ms k Hi|cfg i k Hi Hfree
                    |cfg i k Hi|cfg i k Hi|cfg i f k Hi|cfg i o k r Hi|cfg i o k Hi];
    intros j p Hj; simpl in Hj;
    rewrite (nth_error_set_task _ _ j _ Hi) in Hj;
    destruct (Hinv i _ Hi) as [h' Hd];
    try (destruct (Nat.eqb_spec i j) as [<-|Hne];
         [injection Hj as <-; exists h';
          change (holds _ i) with (holds cfg i);
          remember (holds cfg i) as h eqn:Hh; inversion Hd; subst; auto
         | change (holds _ j) with (holds cfg j); apply (Hinv j p Hj)]; fail).
  - (* acquire *)
    assert (Hnone : forall m, holds cfg m = false)
      by (intros m; unfold holds; rewrite Hfree; reflexivity).
    destruct (Nat.eqb_spec i j) as [<-|Hne].
    + injection Hj as <-. exists h'. rewrite Hnone in Hd.
      replace (holds _ i) with true
        by (symmetry; unfold holds; simpl; apply Nat.eqb_refl).
      inversion Hd; subst; assumption.
    + destruct (Hinv j p Hj) as [h2 Hd2]. exists h2. rewrite Hnone in Hd2.
      replace (holds _ j) with false
        by (symmetry; unfold holds; simpl; apply Nat.eqb_neq; assumption).
      exact Hd2.
  - (* release *)
    assert (Hnone : forall m, holds (set_owner None (set_task i k cfg)) m = false)
      by reflexivity.
    destruct (holds cfg i) eqn:Hh; inversion Hd; subst.
    apply holds_owner in Hh.
    destruct (Nat.eqb_spec i j) as [<-|Hne].
    + injection Hj as <-. exists h'. rewrite Hnone. assumption.
    + destruct (Hinv j p Hj) as [h2 Hd2]. exists h2. rewrite Hnone.
      replace (holds cfg j) with false in Hd2; [exact Hd2|].
      symmetry. unfold holds. rewrite Hh. apply Nat.eqb_neq. assumption.
Qed.

Lemma reachable_disciplined reqs c cfg :
  reachable (initial reqs c) cfg -> well_disciplined cfg.
Proof.
  induction 1 as [|cfg cfg' _ IH Hstep]; [apply initial_disciplined|].
  destruct Hstep as [cfg i e cfg' Hstep|cfg c'].
  - exact (cstep_disciplined IH Hstep).
  - exact IH.
Qed.

Lemma writer_holds_lock cfg i e cfg' :
  well_disciplined cfg ->
  cstep cfg i (Some e) cfg' -> is_line_write e = true ->
  owner cfg = Some i.
Proof.
  intros Hinv Hstep Hw. apply holds_owner.
  inversion Hstep; subst; simpl in Hw; try discriminate.
  match goal with
  | Hn : nth_error (tasks cfg) i = Some _ |- _ => destruct (Hinv i _ Hn) as [h' Hd]
  end.
  destruct (holds cfg i) eqn:Hh; [reflexivity|].
  inversion Hd; subst. simpl in *. congruence.
Qed.

(** C9. Take any requests for the flash, the breath and the numeric display
    (and for cleanup), started on a coordinator whose lock is free, and any
    interleaving of their instructions.  At every moment, a task that is
    about to write to a line holds the lock; hence no other task can write to
    a line or take the lock at that moment; and a task that asks for the lock
    while another one holds it cannot move until it is released, which only
    the holder does.  (The
    oscillator's own writes to its line happen outside the lock and are not
    part of the statement.) *)
Theorem effects_serialized reqs c cfg :
  reachable (initial reqs c) cfg ->
  (forall i e cfg',
     cstep cfg i (Some e) cfg' -> is_line_write e = true -> owner cfg = Some i) /\
  (forall i j e e' cfg1 cfg2,
     cstep cfg i (Some e) cfg1 -> is_line_write e = true ->
     cstep cfg j (Some e') cfg2 ->
     is_line_write e' = true \/ e' = EvAcquire ->
     i = j) /\
  (forall i j k,
     nth_error (tasks cfg) i = Some (Acquire k) -> owner cfg = Some j ->
     forall e cfg', ~ cstep cfg i e cfg') /\
  (forall i cfg', cstep cfg i (Some EvRelease) cfg' -> owner cfg = Some i).
Proof.
  intros Hreach. pose proof (reachable_disciplined Hreach) as Hinv.
  split; [|split; [|split]].
  - intros i e cfg'. apply writer_holds_lock, Hinv.
  - intros i j e e' cfg1 cfg2 Hi Hw Hj [Hw' | ->].
    + pose proof (writer_holds_lock Hinv Hi Hw) as H1.
      pose proof (writer_holds_lock Hinv Hj Hw') as H2. congruence.
    + pose proof (writer_holds_lock Hinv Hi Hw) as H1.
      inversion Hj; subst. congruence.
  - intros i j k Hi Hown e cfg' Hstep.
    inversion Hstep; subst; congruence.
  - intros i cfg' Hstep. apply holds_owner.
    inversion Hstep; subst.
    match goal with
    | Hn : nth_error (tasks cfg) i = Some _ |- _ => destruct (Hinv i _ Hn) as [h' Hd]
    end.
    destruct (holds cfg i) eqn:Hh; [reflexivity | inversion Hd].
Qed.

Lemma advance_step i r cfg cfg' : advance i r cfg = Some cfg' -> step cfg cfg'.
Proof.
  unfold advance. intros H.
  destruct (nth_error (tasks cfg) i) as [[a|e| |c k|n k|ms k|k|k|k|f k|o k|o k]|] eqn:Hi;
    try discriminate;
    try (destruct (owner cfg) eqn:Hown; [discriminate|]);
    injection H as <-; eapply step_task; econstructor; eassumption.
Qed.

Lemma schedule_reachable cfg0 sched cfg cfg' :
  reachable cfg0 cfg -> schedule sched cfg = Some cfg' -> reachable cfg0 cfg'.
Proof.
  revert cfg; induction sched as [|i rest IH]; intros cfg Hr H; simpl in H.
  - injection H as <-. exact Hr.
  - destruct (advance i WaitTimedOut cfg) as [cfg1|] eqn:Ha; [|discriminate].
    apply (IH cfg1); [|exact H].
    eapply reach_step; [exact Hr | eapply advance_step; exact Ha].
Qed.

Lemma effects_serialized_witness :
  reachable (initial two_requests fresh) display_writing /\
  (exists k, nth_error (tasks display_writing) 0 = Some (Gpio (output 27 LOW) k)) /\
  (exists k, nth_error (tasks display_writing) 1 = Some (Acquire k)) /\
  owner display_writing = Some 0%nat /\
  (forall e cfg', ~ cstep display_writing 1 e cfg').
Proof.
  assert (Hreach : reachable (initial two_requests fresh) display_writing).
  { apply (@schedule_reachable _ [1; 0; 0; 0; 0]%nat (initial two_requests fresh));
      [apply reach_start | reflexivity]. }
  destruct (effects_serialized Hreach) as (Hwrite & _ & Hwait & _).
  split; [exact Hreach|].
  split; [eexists; reflexivity|].
  split; [eexists; reflexivity|].
  assert (Hown : owner display_writing = Some 0%nat).
  { eapply Hwrite; [eapply cs_gpio; reflexivity | reflexivity]. }
  split; [exact Hown|].
  eapply Hwait; [reflexivity | exact Hown].
Defined.

(** * Further properties *)

(** ** What interference leaves alone *)

Lemma interfere_frame i c :
  event (interfere i c) = event c /\
  clean_required (interfere i c) = clean_required c /\
  breath_pwm (interfere i c) = breath_pwm c.
Proof. destruct i; repeat split. Qed.

Lemma interfere_from_frame env t n c :
  event (interfere_from env t n c) = event c /\
  clean_required (interfere_from env t n c) = clean_required c /\
  breath_pwm (interfere_from env t n c) = breath_pwm c.
Proof.
  revert t c; induction n as [|n IH]; intros t c; [repeat split|].
  simpl. destruct (IH (S t) (interfere (interference env t) c)) as (H1 & H2 & H3).
  destruct (interfere_frame (interference env t) c) as (G1 & G2 & G3).
  rewrite H1, H2, H3. auto.
Qed.

Lemma locked_replay_quiet env evs w :
  (forall e, In e evs -> e <> EvAcquire /\ e <> EvRelease) ->
  locked (replay env evs w) = locked w.
Proof.
  revert w; induction evs as [|e evs IH]; intros w H; [reflexivity|].
  change (replay env (e :: evs) w) with (replay env evs (apply_event env e w)).
  rewrite IH by (intros e' He'; apply H; right; exact He').
  destruct (H e (or_introl eq_refl)) as [H1 H2].
  destruct e; try reflexivity; congruence.
Qed.

(** ** Levels and PWM after a batch of driver calls *)

Lemma line_level_outputs ps lv tr p :
  In p ps -> line_level (rev (outputs ps lv) ++ tr) p = lv.
Proof.
  unfold outputs. induction ps as [|q ps IH] using rev_ind; [contradiction|].
  intros Hin. rewrite map_app, rev_app_distr. simpl.
  destruct (Z.eqb_spec q p) as [_|Hne]; [reflexivity|].
  apply IH. apply in_app_or in Hin as [Hin|[Hin|[]]]; [exact Hin | congruence].
Qed.

Lemma line_pwm_stops ps tr p :
  In p ps -> line_pwm (rev (map (fun q => EvGpio (PWM_stop q)) ps) ++ tr) p = None.
Proof.
  induction ps as [|q ps IH] using rev_ind; [contradiction|].
  intros Hin. rewrite map_app, rev_app_distr. simpl.
  destruct (Z.eqb_spec q p) as [_|Hne]; [reflexivity|].
  apply IH. apply in_app_or in Hin as [Hin|[Hin|[]]]; [exact Hin | congruence].
Qed.

Lemma times_over_snoc n evs : times_over (S n) evs = times_over n evs ++ evs.
Proof.
  induction n as [|n IH]; simpl; [rewrite app_nil_r; reflexivity|].
  simpl in IH. rewrite IH at 1. rewrite app_assoc. reflexivity.
Qed.

Lemma turns_until_positive P env k t n :
  (0 < n)%nat -> (0 < turns_until P env k t n)%nat.
Proof. destruct n; simpl; [lia|]. destruct (any_tick P env t k); lia. Qed.

(** ** The flash effect *)

Lemma unsafe_set_light_flash_run env ps w :
  run env (_unsafe_set_light_flash ps) w = (Returned tt, replay env (flash_round ps) w).
Proof.
  unfold _unsafe_set_light_flash, flash_round, outputs.
  rewrite run_bind, run_for_each_gpio. cbv beta iota.
  rewrite run_bind.
  change (run env (sleep 200) ?w1) with (Returned tt, suspend env 200 w1).
  cbv beta iota. rewrite run_for_each_gpio, !replay_app. reflexivity.
Qed.

Lemma sleeps_outputs ps lv : sleeps (outputs ps lv) = O.
Proof. unfold sleeps, outputs. induction ps; simpl; auto. Qed.

Lemma sleeps_flash_round ps : sleeps (flash_round ps) = 1%nat.
Proof.
  unfold flash_round. rewrite !sleeps_app, !sleeps_outputs. reflexivity.
Qed.

Lemma flash_section_run env times ps w :
  locked w = false ->
  let r := turns_until sets_stop_event env 1 (ticks w) (Z.to_nat times) in
  exists w',
    run env (flash_critical_section times ps) w = (Returned tt, w') /\
    trace w' = rev (EvAcquire :: times_over r (flash_round ps) ++ [EvRelease]) ++ trace w /\
    locked w' = false /\
    event (coord w') = false /\
    clean_required (coord w') = clean_required (coord w) /\
    breath_pwm (coord w') = breath_pwm (coord w).
Proof.
  intros Hfree r. unfold flash_critical_section.
  rewrite run_with_lock by assumption.
  rewrite run_bind.
  change (run env (modify ?f) ?w0) with (Returned tt, set_coord (f (coord w0)) w0).
  cbv beta iota. rewrite run_bind.
  change (run env (modify ?f) ?w0) with (Returned tt, set_coord (f (coord w0)) w0).
  cbv beta iota. rewrite run_bind.
  rewrite (@repeat_until_stop_run env _ _ (unsafe_set_light_flash_run env ps))
    by reflexivity.
  rewrite sleeps_flash_round. cbn [ticks set_coord set_locked log]. fold r.
  cbv beta iota.
  change (run env (modify ?f) ?w0) with (Returned tt, set_coord (f (coord w0)) w0).
  cbv beta iota. eexists. split; [reflexivity|].
  cbn [trace coord locked set_coord set_locked log event clean_required breath_pwm set_event].
  rewrite trace_replay, coord_replay.
  destruct (interfere_from_frame env
              (ticks (set_coord
                        (set_stop_event false (set_event true (coord w)))
                        (set_coord (set_event true (coord w))
                           (set_locked true (log EvAcquire w)))))
              (sleeps (times_over r (flash_round ps)))
              (set_stop_event false (set_event true (coord w)))) as (_ & H2 & H3).
  repeat split.
  - cbn [trace set_coord set_locked log]. simpl rev.
    rewrite rev_app_distr. simpl. rewrite <- app_assoc. reflexivity.
  - cbn [coord set_coord set_locked log]. rewrite H2. reflexivity.
  - cbn [coord set_coord set_locked log]. rewrite H3. reflexivity.
Qed.

Lemma flash_run env times custom_pins is_odd w :
  locked w = false ->
  reconcilable (coord w) ->
  exists w0 w',
    (w0 = w /\ clean_required (coord w) = false \/
     run env clean_number w = (Returned tt, w0) /\ clean_required (coord w) = true) /\
    locked w0 = false /\ clean_required (coord w0) = false /\
    run env (set_light_flash times custom_pins is_odd) w = (Returned tt, w') /\
    trace w' =
      rev (EvAcquire ::
           times_over (turns_until sets_stop_event env 1 (ticks w0) (Z.to_nat times))
             (flash_round (flash_pins custom_pins is_odd)) ++ [EvRelease]) ++ trace w0 /\
    locked w' = false /\
    event (coord w') = false /\
    clean_required (coord w') = false.
Proof.
  intros Hfree Hrec. unfold set_light_flash. fold (flash_pins custom_pins is_odd).
  rewrite flash_cleans_first.
  destruct (clean_required (coord w)) eqn:Hc.
  - pose proof (clean_number_returns env w Hfree Hrec) as Hret. unfold outcome in Hret.
    destruct (run env clean_number w) as [r w0] eqn:Hrun. simpl in Hret. subst r.
    destruct (clean_number_returned env w Hfree Hrun) as (pre & _ & Hclean & Hfree0).
    destruct (flash_section_run env times (flash_pins custom_pins is_odd) w0 Hfree0)
      as (w' & Hsec & Htr & Hl & He & Hcr & _).
    exists w0, w'. rewrite Hcr, Hclean. repeat split; auto.
  - destruct (flash_section_run env times (flash_pins custom_pins is_odd) w Hfree)
      as (w' & Hsec & Htr & Hl & He & Hcr & _).
    exists w, w'. rewrite Hcr, Hc. repeat split; auto.
Qed.

Lemma flash_postcondition env times custom_pins is_odd w :
  locked w = false ->
  reconcilable (coord w) ->
  outcome env (set_light_flash times custom_pins is_odd) w = Returned tt /\
  locked (exec env (set_light_flash times custom_pins is_odd) w) = false /\
  event (coord (exec env (set_light_flash times custom_pins is_odd) w)) = false /\
  clean_required (coord (exec env (set_light_flash times custom_pins is_odd) w)) = false /\
  (0 < times ->
   forall p, In p (flash_pins custom_pins is_odd) ->
     line_level (trace (exec env (set_light_flash times custom_pins is_odd) w)) p = LOW).
Proof.
  intros Hfree Hrec.
  destruct (flash_run env times custom_pins is_odd w Hfree Hrec)
    as (w0 & w' & _ & _ & _ & Hrun & Htr & Hl & He & Hc).
  unfold outcome, exec. rewrite Hrun. cbn [fst snd].
  repeat split; auto.
  intros Ht p Hp. rewrite Htr.
  pose proof (@turns_until_positive sets_stop_event env 1 (ticks w0) (Z.to_nat times)
                ltac:(lia)) as Hpos.
  destruct (turns_until sets_stop_event env 1 (ticks w0) (Z.to_nat times)) as [|r];
    [lia|].
  rewrite times_over_snoc. unfold flash_round.
  simpl rev. rewrite !rev_app_distr. simpl rev. cbn [app line_level].
  rewrite <- !app_assoc. apply line_level_outputs. exact Hp.
Qed.


(** X1. On a coordinator whose lock is free and whose oscillator, if any,
    can be waited for, [set_light_flash] always returns, and leaves the lock
    free, [event] and [clean_required] clear; if the repeat count is at
    least 1, every line it worked on is left LOW, also when [stop_event] cut
    the repetitions short. *)
Theorem flash_leaves_lines_low env times custom_pins is_odd w :
  locked w = false ->
  reconcilable (coord w) ->
  outcome env (set_light_flash times custom_pins is_odd) w = Returned tt /\
  locked (exec env (set_light_flash times custom_pins is_odd) w) = false /\
  event (coord (exec env (set_light_flash times custom_pins is_odd) w)) = false /\
  clean_required (coord (exec env (set_light_flash times custom_pins is_odd) w)) = false /\
  (0 < times ->
   forall p, In p (flash_pins custom_pins is_odd) ->
     line_level (trace (exec env (set_light_flash times custom_pins is_odd) w)) p = LOW).
Proof. apply flash_postcondition. Qed.

Lemma flash_leaves_lines_low_witness :
  outcome (stop_event_at 0) (set_light_flash 3 None true) world_shown = Returned tt /\
  (forall p, In p [17; 22; 6; 19] ->
     line_level (trace (exec (stop_event_at 0) (set_light_flash 3 None true) world_shown)) p
     = LOW).
Proof.
  destruct (@flash_leaves_lines_low (stop_event_at 0) 3 None true world_shown eq_refl)
    as (H1 & _ & _ & _ & H5).
  - exists (launched 17). split; [reflexivity | left; reflexivity].
  - split; [exact H1 | apply H5; lia].
Defined.

(** X2. With [clean_required] clear and the lock free, [set_light_flash]
    takes the lock, makes its rounds (every line HIGH, 200 ms, every line
    LOW) and releases the lock: as many rounds as the repeat count says if
    [stop_event] is never set, and if it is first set during the sleep of
    round [j] (counted from 0), no round after that one. *)
Theorem flash_rounds env times custom_pins is_odd w :
  locked w = false ->
  clean_required (coord w) = false ->
  let stop_at i := sets_stop_event (interference env (ticks w + i)%nat) in
  let history r :=
    EvAcquire :: times_over r (flash_round (flash_pins custom_pins is_odd)) ++
    [EvRelease] in
  ((forall i, stop_at i = false) ->
   events_of env (set_light_flash times custom_pins is_odd) w =
     history (Z.to_nat times)) /\
  (forall j, (forall i, (i < j)%nat -> stop_at i = false) -> stop_at j = true ->
   events_of env (set_light_flash times custom_pins is_odd) w =
     history (Nat.min (Z.to_nat times) (S j))).
Proof.
  intros Hfree Hc stop_at history.
  assert (Hrun := flash_cleans_first env times (flash_pins custom_pins is_odd) w).
  rewrite Hc in Hrun.
  destruct (flash_section_run env times (flash_pins custom_pins is_odd) w Hfree)
    as (w' & Hsec & Htr & _).
  rewrite Hsec in Hrun.
  assert (Hev : events_of env (set_light_flash times custom_pins is_odd) w =
                history (turns_until sets_stop_event env 1 (ticks w) (Z.to_nat times))).
  { apply events_of_trace. unfold exec, set_light_flash.
    fold (flash_pins custom_pins is_odd). rewrite Hrun. exact Htr. }
  split.
  - intros Hnever. rewrite Hev, turns_until_never; [reflexivity|].
    intros i _. apply Hnever.
  - intros j Hbefore Hat.
    rewrite Hev, (@turns_until_first _ env 1 (ticks w) (Z.to_nat times) j)
      by (auto; lia).
    rewrite Nat.div_1_r. reflexivity.
Qed.

Lemma flash_rounds_witness :
  events_of (stop_event_at 1) (set_light_flash 5 (Some [17]) true) world0 =
  EvAcquire :: times_over 2 (flash_round [17]) ++ [EvRelease].
Proof.
  destruct (@flash_rounds (stop_event_at 1) 5 (Some [17]) true world0 eq_refl eq_refl)
    as [_ H].
  apply (H 1%nat); [|reflexivity].
  intros i Hi. simpl. destruct i; [reflexivity | lia].
Defined.

(** ** The breath effect: pins and exit *)

Lemma breath_section_counted env fuel k ps w :
  locked w = false ->
  exists w',
    run env (breath_critical_section fuel (Some k) ps) w = (Returned tt, w') /\
    trace w' =
      rev (breath_prologue ps ++
           times_over (turns_until sets_stop_event env 23 (ticks w) (Z.to_nat k))
             (breath_turn ps) ++ breath_epilogue ps) ++ trace w /\
    locked w' = false /\
    event (coord w') = false /\
    clean_required (coord w') = clean_required (coord w).
Proof.
  intros Hfree.
  destruct (breath_section_run env fuel (Some k) ps w Hfree) as (w' & Hrun & Htr).
  cbv zeta in Hrun, Htr. exists w'. split; [exact Hrun|]. split; [exact Htr|].
  unfold breath_critical_section in Hrun.
  rewrite run_with_lock in Hrun by assumption.
  rewrite run_bind in Hrun.
  change (run env (modify ?f) ?w0) with (Returned tt, set_coord (f (coord w0)) w0) in Hrun.
  cbv beta iota in Hrun. rewrite run_bind in Hrun.
  change (run env (modify ?f) ?w0) with (Returned tt, set_coord (f (coord w0)) w0) in Hrun.
  cbv beta iota in Hrun. rewrite run_bind, comprehension_pwm_run in Hrun.
  cbv beta iota in Hrun. rewrite run_bind, run_for_each_gpio in Hrun.
  cbv beta iota in Hrun. rewrite run_bind in Hrun.
  match type of Hrun with context [run env (repeat_until_stop _ _) ?w0] =>
    set (w1 := w0) in Hrun;
    assert (Hclear : stop_event (coord w1) = false)
      by (unfold w1; rewrite !(proj1 (replay_gpio_frame _ _ _ _)); reflexivity);
    assert (Hcr : clean_required (coord w1) = clean_required (coord w))
      by (unfold w1; rewrite !(proj1 (replay_gpio_frame _ _ _ _)); reflexivity)
  end.
  clearbody w1.
  rewrite (@repeat_until_stop_run env _ _ (breath_turn_run env ps)) in Hrun
    by assumption.
  cbv beta iota in Hrun. rewrite run_bind, run_for_each_gpio in Hrun.
  cbv beta iota in Hrun.
  change (run env (modify ?f) ?w0) with (Returned tt, set_coord (f (coord w0)) w0) in Hrun.
  cbv beta iota in Hrun. injection Hrun as <-.
  cbn [locked coord set_locked set_coord log event clean_required set_event].
  repeat split.
  rewrite (proj1 (replay_gpio_frame _ _ _ _)), coord_replay.
  rewrite (proj1 (proj2 (interfere_from_frame _ _ _ _))). exact Hcr.
Qed.

Lemma breath_postcondition env fuel k pins_arg ps w :
  breath_pins pins_arg = Some ps ->
  locked w = false ->
  reconcilable (coord w) ->
  outcome env (set_light_breath fuel (Some k) pins_arg) w = Returned tt /\
  locked (exec env (set_light_breath fuel (Some k) pins_arg) w) = false /\
  event (coord (exec env (set_light_breath fuel (Some k) pins_arg) w)) = false /\
  clean_required (coord (exec env (set_light_breath fuel (Some k) pins_arg) w)) = false /\
  (forall p, In p ps ->
     line_pwm (trace (exec env (set_light_breath fuel (Some k) pins_arg) w)) p = None).
Proof.
  intros Hps Hfree Hrec.
  assert (Hgoal : forall w0, locked w0 = false -> clean_required (coord w0) = false ->
            run env (set_light_breath fuel (Some k) pins_arg) w =
            run env (breath_critical_section fuel (Some k) ps) w0 ->
            outcome env (set_light_breath fuel (Some k) pins_arg) w = Returned tt /\
            locked (exec env (set_light_breath fuel (Some k) pins_arg) w) = false /\
            event (coord (exec env (set_light_breath fuel (Some k) pins_arg) w)) = false /\
            clean_required (coord (exec env (set_light_breath fuel (Some k) pins_arg) w))
              = false /\
            (forall p, In p ps ->
               line_pwm (trace (exec env (set_light_breath fuel (Some k) pins_arg) w)) p
               = None)).
  { intros w0 Hfree0 Hc0 Heq.
    destruct (breath_section_counted env fuel k ps w0 Hfree0)
      as (w' & Hsec & Htr & Hl & He & Hcr).
    unfold outcome, exec. rewrite Heq, Hsec. cbn [fst snd].
    rewrite Hcr, Hc0. repeat split; auto.
    intros p Hp. rewrite Htr. unfold breath_epilogue.
    rewrite !rev_app_distr. simpl rev. cbn [app line_pwm].
    rewrite <- !app_assoc. apply line_pwm_stops. exact Hp. }
  pose proof (breath_cleans_first env fuel (Some k) pins_arg w) as Hrun.
  rewrite Hps in Hrun.
  destruct (clean_required (coord w)) eqn:Hc.
  - pose proof (clean_number_returns env w Hfree Hrec) as Hret. unfold outcome in Hret.
    destruct (run env clean_number w) as [r w0] eqn:Hclean. simpl in Hret. subst r.
    destruct (clean_number_returned env w Hfree Hclean) as (pre & _ & Hc0 & Hfree0).
    apply (Hgoal w0); assumption.
  - apply (Hgoal w); assumption.
Qed.


(** X3. On a coordinator whose lock is free and whose oscillator, if any,
    can be waited for, [set_light_breath] with a repeat count and valid pin
    numbers always returns; it leaves the lock free, [event] and
    [clean_required] clear, and no PWM running on any line it worked on. *)
Theorem breath_stops_pwm env fuel k pins_arg ps w :
  breath_pins pins_arg = Some ps ->
  locked w = false ->
  reconcilable (coord w) ->
  outcome env (set_light_breath fuel (Some k) pins_arg) w = Returned tt /\
  locked (exec env (set_light_breath fuel (Some k) pins_arg) w) = false /\
  event (coord (exec env (set_light_breath fuel (Some k) pins_arg) w)) = false /\
  clean_required (coord (exec env (set_light_breath fuel (Some k) pins_arg) w)) = false /\
  (forall p, In p ps ->
     line_pwm (trace (exec env (set_light_breath fuel (Some k) pins_arg) w)) p = None).
Proof. apply breath_postcondition. Qed.

Lemma breath_stops_pwm_witness :
  outcome (quiet false) (set_light_breath 0 (Some 2) (Some [1; 0])) world_shown =
    Returned tt /\
  (forall p, In p [17; 26] ->
     line_pwm (trace (exec (quiet false) (set_light_breath 0 (Some 2) (Some [1; 0]))
                        world_shown)) p = None).
Proof.
  destruct (@breath_stops_pwm (quiet false) 0 2 (Some [1; 0]) [17; 26] world_shown
              eq_refl eq_refl) as (H1 & _ & _ & _ & H5).
  - exists (launched 17). split; [reflexivity | left; reflexivity].
  - split; assumption.
Defined.

Lemma select_pins_out_of_range xs :
  (exists x, In x xs /\ (x < -7 \/ 8 < x)) -> select_pins xs = None.
Proof.
  induction xs as [|y xs IH]; intros (x & Hin & Hx); [contradiction|].
  simpl. destruct Hin as [->|Hin].
  - replace (list_index pins (x - 1)) with (@None Z); [reflexivity|].
    unfold list_index. change (Z.of_nat (List.length pins)) with 8.
    repeat match goal with
    | |- context [if ?b then _ else _] =>
        let E := fresh "E" in
        destruct b eqn:E;
        [apply andb_true_iff in E as [E1 E2];
         apply Z.leb_le in E1; apply Z.ltb_lt in E2; exfalso; lia|]
    end.
    reflexivity.
  - rewrite IH by eauto. destruct (list_index pins (y - 1)); reflexivity.
Qed.

(** X4. A pin number below -7 or above 8 makes [set_light_breath] raise
    [IndexError] at once: before the test of [clean_required], before the
    lock is asked for, and before any driver call; nothing has changed. *)
Theorem breath_rejects_bad_pin env fuel times xs w :
  (exists x, In x xs /\ (x < -7 \/ 8 < x)) ->
  run env (set_light_breath fuel times (Some xs)) w = (Raised IndexError, w).
Proof.
  intros Hbad. rewrite breath_cleans_first. simpl breath_pins.
  rewrite select_pins_out_of_range by assumption. reflexivity.
Qed.

Lemma breath_rejects_bad_pin_witness :
  run (quiet false) (set_light_breath 0 (Some 1) (Some [1; 9]))
    (set_locked true world_shown) =
  (Raised IndexError, set_locked true world_shown).
Proof.
  apply (@breath_rejects_bad_pin (quiet false) 0 (Some 1) [1; 9]).
  exists 9. split; [simpl; tauto | lia].
Defined.

Lemma list_index_pins_wraps x :
  -7 <= x <= 8 ->
  list_index pins (x - 1) = nth_error pins (Z.to_nat ((x - 1) mod 8)).
Proof.
  intros Hx.
  assert (Hcases : x = -7 \/ x = -6 \/ x = -5 \/ x = -4 \/ x = -3 \/ x = -2 \/
                   x = -1 \/ x = 0 \/ x = 1 \/ x = 2 \/ x = 3 \/ x = 4 \/ x = 5 \/
                   x = 6 \/ x = 7 \/ x = 8) by lia.
  repeat (destruct Hcases as [->|Hcases]; [reflexivity|]). subst x. reflexivity.
Qed.

(** X5. Pin numbers from -7 to 8 are all accepted by [set_light_breath]:
    number [x] stands for [pins[(x - 1) mod 8]], so 1 to 8 are the lines in
    order, 0 is the last line and -7 the first one again. *)
Theorem breath_pin_numbers_wrap xs :
  Forall (fun x => -7 <= x <= 8) xs ->
  exists ps,
    breath_pins (Some xs) = Some ps /\
    List.length ps = List.length xs /\
    forall i x, nth_error xs i = Some x ->
      nth_error ps i = nth_error pins (Z.to_nat ((x - 1) mod 8)).
Proof.
  simpl breath_pins. induction 1 as [|x xs Hx _ (ps & Hps & Hlen & Hnth)].
  - exists []. repeat split. intros [|i] x; discriminate.
  - simpl. rewrite Hps, (list_index_pins_wraps Hx).
    destruct (nth_error pins (Z.to_nat ((x - 1) mod 8))) as [p|] eqn:Hp.
    + exists (p :: ps). split; [reflexivity|]. split; [simpl; congruence|].
      intros [|i] y Hy; simpl in *; [injection Hy as <-; congruence | auto].
    + exfalso. apply nth_error_None in Hp. simpl in Hp.
      pose proof (Z.mod_pos_bound (x - 1) 8 ltac:(lia)). lia.
Qed.

Lemma breath_pin_numbers_wrap_witness :
  exists ps,
    breath_pins (Some [0; -7; 8]) = Some ps /\
    List.length ps = 3%nat /\
    forall i x, nth_error [0; -7; 8] i = Some x ->
      nth_error ps i = nth_error pins (Z.to_nat ((x - 1) mod 8)).
Proof.
  apply (@breath_pin_numbers_wrap [0; -7; 8]).
  repeat constructor; lia.
Defined.

(** ** What the numeric display leaves in the coordinator *)

Lemma update_nth_last (A : Type) (f : A -> A) (l : list A) (x : A) :
  update_nth (List.length l) f (l ++ [x]) = l ++ [f x].
Proof. induction l as [|y l IH]; simpl; [reflexivity | rewrite IH; reflexivity]. Qed.

Lemma nth_error_last (A : Type) (l : list A) (x : A) :
  nth_error (l ++ [x]) (List.length l) = Some x.
Proof. induction l as [|y l IH]; simpl; auto. Qed.

Lemma show_number_postcondition env n show_breath w :
  0 < n < 128 -> locked w = false ->
  let w' := exec env (show_number n show_breath) w in
  locked w' = false /\
  event (coord w') = false /\
  stop_event (coord w') = stop_event (coord w) /\
  clean_required (coord w') = true /\
  (show_breath = false ->
     breath_pwm (coord w') = breath_pwm (coord w) /\
     heap (coord w') = heap (coord w) /\
     forall p, line_pwm (trace w') p = line_pwm (trace w) p) /\
  (show_breath = true ->
     breath_pwm (coord w') = Some (List.length (heap (coord w))) /\
     heap (coord w') = heap (coord w) ++ [launched 17] /\
     line_pwm (trace w') 17 = Some 0 /\
     reconcilable (coord w')).
Proof.
  intros Hn Hfree.
  pose proof (encodes_in_range Hn) as Henc. unfold encodes in Henc.
  destruct (int (slice_from 2 (bin n))) as [digits|] eqn:Hint; [|discriminate].
  apply String.eqb_eq in Henc.
  assert (Hguard : negb ((128 >? n) && (n >? 0)) = false).
  { apply negb_false_iff, andb_true_iff. split; apply Z.gtb_lt; lia. }
  destruct (levels_of_shape n) as (l0 & l1 & l2 & l3 & l4 & l5 & l6 & Hl).
  assert (Hrun : forall sb, exists w1,
            run env (show_number n sb) w = (Returned tt, w1) /\
            w1 = snd (run env
                   (with_lock (
                      modify (set_event true) ;;
                      (if sb then
                         o <- StandalonePWM_init 17 ;;
                         modify (set_breath_pwm (Some o)) ;;
                         StandalonePWM_run o
                       else Ret tt) ;;
                      modify (set_clean_required true) ;;
                      for_each (combine display_pins [l0; l1; l2; l3; l4; l5; l6])
                        (fun pl => gpio (output (fst pl) (snd pl))) ;;
                      modify (set_event false)))
                   (log (EvStdout n) w))).
  { intros sb. unfold show_number. rewrite run_bind.
    change (run env (print n) w) with (Returned tt, log (EvStdout n) w).
    cbv beta iota. rewrite Hguard, Hint. cbv zeta. rewrite Henc, Hl, show_bits_program.
    rewrite !run_with_lock by assumption.
    destruct sb; simpl; eexists; split; reflexivity. }
  cbv zeta. unfold exec.
  destruct (Hrun show_breath) as (w1 & -> & ->). cbn [snd].
  rewrite run_with_lock by assumption.
  destruct show_breath; simpl.
  - repeat split; try discriminate.
    + unfold update_osc, alloc. simpl. rewrite update_nth_last. reflexivity.
    + unfold reconcilable. simpl. exists (launched 17).
      unfold lookup_osc, update_osc, alloc. simpl.
      rewrite update_nth_last, nth_error_last.
      split; [reflexivity | left; reflexivity].
  - repeat split; try discriminate.
Qed.


(** X6. A successful [show_number] leaves the lock free, [event] clear and
    [clean_required] set.  Without the breathing indicator it touches neither
    [breath_pwm] nor any oscillator; with it, PWM runs at 0% on line 17, a new
    oscillator with a pending future is registered after the existing ones
    and [breath_pwm] refers to it, whatever it referred to before. *)
Theorem show_number_state env n show_breath w :
  0 < n < 128 -> locked w = false ->
  let w' := exec env (show_number n show_breath) w in
  locked w' = false /\
  event (coord w') = false /\
  stop_event (coord w') = stop_event (coord w) /\
  clean_required (coord w') = true /\
  (show_breath = false ->
     breath_pwm (coord w') = breath_pwm (coord w) /\
     heap (coord w') = heap (coord w) /\
     forall p, line_pwm (trace w') p = line_pwm (trace w) p) /\
  (show_breath = true ->
     breath_pwm (coord w') = Some (List.length (heap (coord w))) /\
     heap (coord w') = heap (coord w) ++ [launched 17] /\
     line_pwm (trace w') 17 = Some 0 /\
     reconcilable (coord w')).
Proof. apply show_number_postcondition. Qed.

Lemma show_number_state_witness :
  breath_pwm (coord (exec (quiet false) (show_number 3 true) world_shown)) = Some 1%nat /\
  heap (coord (exec (quiet false) (show_number 3 true) world_shown)) =
    [launched 17; launched 17].
Proof.
  destruct (@show_number_state (quiet false) 3 true world_shown ltac:(lia) eq_refl)
    as (_ & _ & _ & _ & _ & H).
  destruct (H eq_refl) as (H1 & H2 & _). split; assumption.
Defined.

(** ** Cleanup, again and after a forced stop *)

Lemma reconcile_cancelled env w o s :
  breath_pwm (coord w) = Some o ->
  lookup_osc (coord w) o = Some s ->
  future s = Some FCancelled ->
  run env reconcile_part w =
  (Raised CancelledError,
   set_coord (update_osc o (set_stop_request true) (coord w)) w).
Proof.
  intros Hb Hs Hf. destruct s as [sr pw fu]. simpl in Hf. subst fu.
  unfold reconcile_part. rewrite run_bind. simpl (run env get w). cbv beta iota.
  rewrite Hb. rewrite run_bind. simpl (run env (set_stop o) w). cbv beta iota.
  rewrite run_try_except.
  unfold future_result. rewrite run_bind. simpl (run env get _). cbv beta iota.
  simpl coord. rewrite lookup_update_osc, Hs. simpl.
  unfold join. simpl coord. rewrite lookup_update_osc, Hs. reflexivity.
Qed.

Lemma clean_number_stale env w :
  locked w = false -> stale (coord w) ->
  exists w',
    run env clean_number w = (Raised CancelledError, w') /\
    trace w' = EvRelease :: EvAcquire :: trace w /\
    locked w' = false /\
    stale (coord w') /\
    clean_required (coord w') = clean_required (coord w) /\
    event (coord w') = event (coord w).
Proof.
  intros Hfree (o & s & Hb & Hs & Hf).
  rewrite clean_number_unfold by assumption.
  rewrite (@reconcile_cancelled env _ o s) by assumption.
  eexists. split; [reflexivity|]. repeat split.
  exists o, (set_stop_request true s). simpl. repeat split.
  - exact Hb.
  - change (lookup_osc (update_osc o (set_stop_request true) (coord w)) o =
            Some (set_stop_request true s)).
    rewrite lookup_update_osc, Hs. reflexivity.
  - destruct s; exact Hf.
Qed.

(** X7. Once [breath_pwm] refers to an oscillator that a forced stop has
    cancelled, [clean_number] raises [CancelledError] from the wait on its
    future: the lock is taken and released, no line is written, and
    [clean_required] and the stale reference stay as they were, so the same
    happens at the next call.  With [clean_required] set, [set_light_flash] and
    [set_light_breath] end there too, and so does [close] whenever no effect
    is active. *)
Theorem stale_oscillator_blocks_cleanup env w :
  locked w = false -> stale (coord w) ->
  (outcome env clean_number w = Raised CancelledError /\
   events_of env clean_number w = [EvAcquire; EvRelease] /\
   locked (exec env clean_number w) = false /\
   stale (coord (exec env clean_number w)) /\
   clean_required (coord (exec env clean_number w)) = clean_required (coord w)) /\
  (clean_required (coord w) = true ->
   (forall times custom_pins is_odd,
      run env (set_light_flash times custom_pins is_odd) w = run env clean_number w) /\
   (forall fuel times pins_arg ps, breath_pins pins_arg = Some ps ->
      run env (set_light_breath fuel times pins_arg) w = run env clean_number w)) /\
  (event (coord w) = false -> run env close w = run env clean_number w).
Proof.
  intros Hfree Hstale.
  destruct (clean_number_stale env w Hfree Hstale)
    as (w' & Hrun & Htr & Hl & Hst & Hc & _).
  split; [|split].
  - unfold outcome, exec. rewrite Hrun. cbn [fst snd]. repeat split; auto.
    apply events_of_trace. unfold exec. rewrite Hrun. exact Htr.
  - intros Hcr. split.
    + intros times custom_pins is_odd. unfold set_light_flash.
      rewrite flash_cleans_first, Hcr, Hrun. reflexivity.
    + intros fuel times pins_arg ps Hps.
      rewrite breath_cleans_first, Hps, Hcr, Hrun. reflexivity.
  - intros He. rewrite close_unfold, He, Hrun. reflexivity.
Qed.

Lemma stale_oscillator_blocks_cleanup_witness :
  clean_required (coord world_wedged) = true /\
  outcome (quiet false) clean_number world_wedged = Raised CancelledError /\
  run (quiet false) (set_light_flash 1 None true) world_wedged =
    run (quiet false) clean_number world_wedged /\
  run (quiet false) close world_wedged = run (quiet false) clean_number world_wedged.
Proof.
  assert (Hstale : stale (coord world_wedged)).
  { exists 0%nat, {| stop_request := true; pwm := None; future := Some FCancelled |}.
    repeat split. }
  destruct (@stale_oscillator_blocks_cleanup (quiet false) world_wedged eq_refl Hstale)
    as ((H1 & _) & H2 & H3).
  split; [reflexivity|]. split; [exact H1|]. split.
  - apply (proj1 (H2 eq_refl)).
  - apply H3. reflexivity.
Defined.

Lemma run_seq (A : Type) env (p : Prog unit) (q : Prog A) w w1 :
  run env p w = (Returned tt, w1) -> run env (p ;; q) w = run env q w1.
Proof. intros H. rewrite run_bind, H. reflexivity. Qed.

(** X9. When the outstanding oscillator had to be stopped by force, a
    [close] that follows the cleanup fails: it runs the cleanup again, the
    wait on the cancelled future raises [CancelledError], and
    [GPIO.cleanup()] is never called. *)
Theorem forced_cleanup_then_close_fails env w o s p :
  locked w = false ->
  event (coord w) = false ->
  breath_pwm (coord w) = Some o ->
  lookup_osc (coord w) o = Some s ->
  future s = Some FPending ->
  pwm s = Some p ->
  ends_in_time env = false ->
  outcome env (clean_number ;; close) w = Raised CancelledError /\
  events_of env (clean_number ;; close) w =
    forced_cleanup_events p ++ [EvAcquire; EvRelease] /\
  ~ In (EvGpio cleanup) (events_of env (clean_number ;; close) w).
Proof.
  intros Hfree He Hb Hs Hf Hp Henv.
  pose proof (clean_number_unfold env w Hfree) as Hrun.
  rewrite (@reconcile_forced env _ o s p) in Hrun by assumption.
  match type of Hrun with _ = (_, ?w1') => set (w1 := w1') in Hrun end.
  assert (Hstale : stale (coord w1)).
  { exists o, {| stop_request := true; pwm := None; future := Some FCancelled |}.
    split; [exact Hb|]. split; [|reflexivity].
    unfold w1. simpl.
    change (lookup_osc (set_clean_required false ?c) o) with (lookup_osc c o).
    rewrite !lookup_update_osc, Hs. destruct s; reflexivity. }
  destruct (@clean_number_stale env w1 eq_refl Hstale) as (w2 & Hrun2 & Htr2 & _).
  assert (Hclose : run env (clean_number ;; close) w = (Raised CancelledError, w2)).
  { rewrite (@run_seq _ env clean_number close w _ Hrun), close_unfold.
    replace (event (coord w1)) with false by (symmetry; exact He).
    rewrite Hrun2. reflexivity. }
  assert (Hev : events_of env (clean_number ;; close) w =
                forced_cleanup_events p ++ [EvAcquire; EvRelease]).
  { apply events_of_trace. unfold exec. rewrite Hclose. cbn [snd].
    rewrite Htr2. reflexivity. }
  unfold outcome. rewrite Hclose. split; [reflexivity|]. split; [exact Hev|].
  rewrite Hev. unfold forced_cleanup_events, outputs. simpl.
  intros H. repeat (destruct H as [H|H]; [discriminate|]). exact H.
Qed.

Lemma forced_cleanup_then_close_fails_witness :
  outcome (quiet false) (clean_number ;; close) world_shown = Raised CancelledError.
Proof.
  apply (@forced_cleanup_then_close_fails (quiet false) world_shown 0%nat
           (launched 17) 17); reflexivity.
Defined.

(** ** Shutdown after a forced stop *)

(** C5 at the failing input.  While [event] is set, [close] raises
    [RuntimeError] and changes nothing.  Now take [show_number(n)], a cleanup
    and [show_number(m, False)] on a new coordinator: the cleanup had to stop
    the oscillator by force, and [breath_pwm] still refers to it.  No effect
    is active and [clean_required] is set, yet [close] does not clean up and
    release: the wait on the cancelled future raises [CancelledError], the
    lock is taken and given back, the display lines still show [m] (none is
    driven LOW), and [GPIO.cleanup()] is never called. *)
Theorem close_fails_after_forced_stop env :
  (forall w, event (coord w) = true -> run env close w = (Raised RuntimeError, w)) /\
  (forall n m, 0 < n < 128 -> 0 < m < 128 -> ends_in_time env = false ->
     let before := show_number n true ;; clean_number ;; show_number m false in
     let w := exec env before world0 in
     outcome env before world0 = Returned tt /\
     event (coord w) = false /\ locked w = false /\
     clean_required (coord w) = true /\
     outcome env close w = Raised CancelledError /\
     events_of env close w = [EvAcquire; EvRelease] /\
     ~ In (EvGpio cleanup) (events_of env close w) /\
     read_display (trace (exec env close w)) = levels_of m).
Proof.
  split.
  { intros w He. rewrite close_unfold, He. reflexivity. }
  intros n m Hn Hm Henv. cbv zeta.
  (* the display with its indicator *)
  destruct (@show_number_run env n true world0 Hn eq_refl)
    as (w1 & Hrun1 & _ & Hl1 & _ & He1 & _).
  pose proof (@show_number_postcondition env n true world0 Hn eq_refl) as Hpost1.
  cbv zeta in Hpost1. unfold exec in Hpost1. rewrite Hrun1 in Hpost1.
  cbn [snd] in Hpost1.
  destruct Hpost1 as (_ & _ & _ & _ & _ & Hb1).
  destruct (Hb1 eq_refl) as (Hbp1 & Hheap1 & _).
  change (heap (coord world0)) with (@nil StandalonePWM) in Hbp1, Hheap1.
  cbn [List.length app] in Hbp1, Hheap1.
  (* the cleanup stops the oscillator by force *)
  pose proof (clean_number_unfold env w1 Hl1) as Hrun2.
  rewrite (@reconcile_forced env _ 0%nat (launched 17) 17) in Hrun2;
    [ | exact Hbp1 | unfold lookup_osc; cbn [coord set_locked log]; rewrite Hheap1;
        reflexivity | reflexivity | reflexivity | exact Henv ].
  match type of Hrun2 with _ = (_, ?w2') => set (w2 := w2') in Hrun2 end.
  assert (Hl2 : locked w2 = false) by reflexivity.
  assert (Hbp2 : breath_pwm (coord w2) = Some 0%nat) by exact Hbp1.
  assert (Hs2 : lookup_osc (coord w2) 0 =
                Some {| stop_request := true; pwm := None; future := Some FCancelled |}).
  { unfold w2. simpl.
    change (lookup_osc (set_clean_required false ?c) 0) with (lookup_osc c 0).
    rewrite !lookup_update_osc. unfold lookup_osc. rewrite Hheap1. reflexivity. }
  (* the display without indicator *)
  destruct (@show_number_run env m false w2 Hm Hl2)
    as (w3 & Hrun3 & Htr3 & Hl3 & _ & He3 & Hc3).
  pose proof (@show_number_postcondition env m false w2 Hm Hl2) as Hpost3.
  cbv zeta in Hpost3. unfold exec in Hpost3. rewrite Hrun3 in Hpost3.
  cbn [snd] in Hpost3.
  destruct Hpost3 as (_ & _ & _ & _ & Hplain & _).
  destruct (Hplain eq_refl) as (Hbp3 & Hheap3 & _).
  assert (Hstale : stale (coord w3)).
  { exists 0%nat, {| stop_request := true; pwm := None; future := Some FCancelled |}.
    split; [rewrite Hbp3; exact Hbp2|]. split; [|reflexivity].
    unfold lookup_osc in *. rewrite Hheap3. exact Hs2. }
  assert (Hbefore : run env (show_number n true ;; clean_number ;; show_number m false)
                      world0 = (Returned tt, w3)).
  { rewrite run_bind, Hrun1. cbv beta iota. rewrite run_bind, Hrun2. exact Hrun3. }
  (* close *)
  destruct (@clean_number_stale env w3 Hl3 Hstale) as (w4 & Hrun4 & Htr4 & _).
  assert (Hclose : run env close w3 = (Raised CancelledError, w4)).
  { rewrite close_unfold, He3, Hrun4. reflexivity. }
  assert (Hev : events_of env close w3 = [EvAcquire; EvRelease]).
  { apply events_of_trace. unfold exec. rewrite Hclose. exact Htr4. }
  unfold outcome, exec. rewrite Hbefore. cbn [fst snd]. rewrite Hclose. cbn [fst snd].
  split; [reflexivity|]. split; [exact He3|]. split; [exact Hl3|].
  split; [exact Hc3|]. split; [reflexivity|]. split; [exact Hev|]. split.
  - rewrite Hev. intros [H|[H|[]]]; discriminate.
  - rewrite Htr4, Htr3.
    change (read_display (EvRelease :: EvAcquire :: ?t)) with (read_display t).
    unfold show_number_events. cbn [app].
    change (EvStdout m :: EvAcquire :: pattern_writes m ++ [EvRelease])
      with ([EvStdout m; EvAcquire] ++ pattern_writes m ++ [EvRelease]).
    apply read_display_after_pattern.
Qed.

Lemma close_fails_after_forced_stop_witness :
  run (quiet false) close world_busy = (Raised RuntimeError, world_busy) /\
  event (coord world_wedged) = false /\
  clean_required (coord world_wedged) = true /\
  outcome (quiet false) close world_wedged = Raised CancelledError /\
  events_of (quiet false) close world_wedged = [EvAcquire; EvRelease] /\
  read_display (trace (exec (quiet false) close world_wedged)) = levels_of 3.
Proof.
  destruct (close_fails_after_forced_stop (quiet false)) as [Hbusy Hidle].
  split; [apply Hbusy; reflexivity|].
  destruct (Hidle 5 3 ltac:(lia) ltac:(lia) eq_refl)
    as (_ & H1 & _ & H2 & H3 & H4 & _ & H5).
  repeat split; assumption.
Defined.

(** ** The lock is given back *)

Lemma locked_join env o w : locked (snd (join env o w)) = locked w.
Proof.
  unfold join. destruct (lookup_osc (coord w) o) as [s|]; [|reflexivity].
  destruct (future s) as [[| |]|]; try reflexivity.
  destruct (stop_request s && ends_in_time env); [|reflexivity].
  unfold oscillator_exit. destruct (pwm s); reflexivity.
Qed.

Lemma Disciplined_run (A : Type) env h (p : Prog A) h' :
  Disciplined h p h' ->
  forall w, locked w = h ->
    match run env p w with
    | (Returned _, w') => locked w' = h'
    | (Raised _, w') => locked w' = h'
    | (Blocked, _) => False
    | (Diverged, _) => True
    end.
Proof.
  induction 1 as [h a|h e|h h'|c k h' _ IH|c k h h' _ _ IH|n k h h' _ IH
                 |ms k h h' _ IH|k h' _ IH|k h' _ IH|k h h' _ IH|f k h h' _ IH
                 |o k h h' _ IH|o k h h' _ IH];
    intros w Hw; simpl; auto; try (apply IH; exact Hw).
  - rewrite Hw. apply IH. reflexivity.
  - apply IH. reflexivity.
  - pose proof (locked_join env o w) as Hj.
    destruct (join env o w) as [r w1]. apply IH. simpl in Hj. congruence.
Qed.

Lemma Disciplined_close : Disciplined false close false.
Proof.
  unfold close, event_object_truth. discipline.
  apply D_Gpio_free; [reflexivity | constructor].
Qed.

Lemma Disciplined_operation op : Disciplined false (operation op) false.
Proof. destruct op; [apply Disciplined_program | apply Disciplined_close]. Qed.

(** X10. Whatever happens inside, a flash, breath, display, cleanup or
    close started with the lock free never waits for the lock forever, and
    when it returns or raises, also with [CancelledError] from inside the
    cleanup, the lock is free again. *)
Theorem lock_released_on_exit env op w :
  locked w = false ->
  outcome env (operation op) w <> Blocked /\
  (outcome env (operation op) w <> Diverged ->
   locked (exec env (operation op) w) = false).
Proof.
  intros Hfree.
  pose proof (Disciplined_run env (Disciplined_operation op) w Hfree) as H.
  unfold outcome, exec.
  destruct (run env (operation op) w) as [[a|e| |] w']; simpl;
    split; try discriminate; try contradiction; auto.
Qed.

Lemma lock_released_on_exit_witness :
  outcome (quiet false) (operation (OpRequest (ReqFlash 1 None true))) world_wedged
    <> Blocked /\
  locked (exec (quiet false) (operation (OpRequest (ReqFlash 1 None true))) world_wedged)
    = false.
Proof.
  destruct (@lock_released_on_exit (quiet false) (OpRequest (ReqFlash 1 None true))
              world_wedged eq_refl) as [H1 H2].
  split; [exact H1 | apply H2; discriminate].
Defined.

(** ** The oscillator after a forced stop *)

Lemma update_nth_same (A : Type) (f : A -> A) (l : list A) (n : nat) (x : A) :
  nth_error l n = Some x -> f x = x -> update_nth n f l = l.
Proof.
  revert n; induction l as [|y l IH]; intros [|n] Hn Hf; simpl in *; try discriminate.
  - injection Hn as ->. rewrite Hf. reflexivity.
  - rewrite (IH n) by assumption. reflexivity.
Qed.

Lemma force_stop_run env o s f w :
  lookup_osc (coord w) o = Some s ->
  future s = Some f ->
  run env (force_stop o) w =
  (Returned tt,
   match pwm s with
   | Some p =>
       set_coord
         (update_osc o (set_pwm None)
            (update_osc o (set_future (Some (cancel f))) (coord w)))
         (log (EvGpio (PWM_stop p)) w)
   | None => set_coord (update_osc o (set_future (Some (cancel f))) (coord w)) w
   end).
Proof.
  intros Hs Hf. destruct s as [sr pw fu]. simpl in Hf. subst fu.
  unfold force_stop. rewrite run_bind. simpl (run env get w). cbv beta iota.
  rewrite Hs. rewrite run_bind.
  change (run env (modify ?g) ?w0) with (Returned tt, set_coord (g (coord w0)) w0).
  cbv beta iota. rewrite run_bind. simpl (run env get _). cbv beta iota.
  simpl coord. rewrite lookup_update_osc, Hs. simpl.
  destruct pw; reflexivity.
Qed.

(** X11. After [force_stop], the oscillator's object has no PWM any more,
    and its coroutine, should it run on, cannot touch the line: the next
    change of duty cycle, and the loop from its head, raise [AttributeError]
    without a driver call. *)
Theorem oscillator_silent_after_force_stop env o s f w :
  lookup_osc (coord w) o = Some s ->
  future s = Some f ->
  let w1 := exec env (force_stop o) w in
  osc_pwm (coord w1) o = None /\
  (forall env' fuel,
     run env' (runnable (S fuel) o) w1 = (Raised AttributeError, w1)) /\
  (forall env' dc dcs,
     run env'
       (for_each (dc :: dcs) (fun dc =>
          self_pwm_ChangeDutyCycle o (dc * 10) ;; sleep 200)) w1 =
     (Raised AttributeError, w1)).
Proof.
  intros Hs Hf w1.
  assert (Hp : exists s1, lookup_osc (coord w1) o = Some s1 /\ pwm s1 = None).
  { unfold w1, exec. rewrite (force_stop_run env o w Hs Hf).
    destruct s as [sr [p|] fu]; simpl.
    - eexists. rewrite !lookup_update_osc, Hs. simpl. split; reflexivity.
    - eexists. rewrite !lookup_update_osc, Hs. simpl. split; reflexivity. }
  clearbody w1. destruct Hp as ([sr pw fu] & Hl & Hpw). simpl in Hpw. subst pw.
  split; [unfold osc_pwm; rewrite Hl; reflexivity|]. split.
  - intros env' fuel. cbn [runnable]. rewrite run_bind. simpl (run env' get w1).
    cbv beta iota. rewrite Hl. destruct sr; simpl negb; cbv iota.
    + rewrite run_bind. unfold self_pwm_stop. rewrite run_bind.
      simpl (run env' get w1). cbv beta iota. rewrite Hl. reflexivity.
    + rewrite run_bind. unfold runnable_body. rewrite run_bind.
      change (range 10) with (0 :: map Z.of_nat (seq 1 9)). cbn [for_each].
      rewrite !run_bind. unfold self_pwm_ChangeDutyCycle. rewrite run_bind.
      simpl (run env' get w1). cbv beta iota. rewrite Hl. reflexivity.
  - intros env' dc dcs. cbn [for_each]. rewrite !run_bind.
    unfold self_pwm_ChangeDutyCycle. rewrite run_bind.
    simpl (run env' get w1). cbv beta iota. rewrite Hl. reflexivity.
Qed.

Lemma oscillator_silent_after_force_stop_witness :
  osc_pwm (coord (exec (quiet false) (force_stop 0) world_shown)) 0 = None /\
  run (quiet false) (runnable 3 0) (exec (quiet false) (force_stop 0) world_shown) =
    (Raised AttributeError, exec (quiet false) (force_stop 0) world_shown).
Proof.
  destruct (@oscillator_silent_after_force_stop (quiet false) 0%nat (launched 17)
              FPending world_shown eq_refl eq_refl) as (H1 & H2 & _).
  split; [exact H1 | apply H2].
Defined.

Lemma set_coord_same w : set_coord (coord w) w = w.
Proof. destruct w; reflexivity. Qed.

Lemma update_osc_same c o s g :
  lookup_osc c o = Some s -> g s = s -> update_osc o g c = c.
Proof.
  intros Hs Hg. unfold update_osc, lookup_osc in *.
  rewrite (update_nth_same g _ _ Hs Hg). destruct c; reflexivity.
Qed.

Lemma cancel_cancel f : cancel (cancel f) = cancel f.
Proof. destruct f; reflexivity. Qed.

(** X12. [force_stop] can be repeated: on an oscillator that has a future,
    a second call right after the first makes no driver call and changes
    nothing (the guard [if self.pwm] skips the stop, and cancelling again
    leaves the future as it is). *)
Theorem force_stop_twice env o s f w :
  lookup_osc (coord w) o = Some s ->
  future s = Some f ->
  run env (force_stop o ;; force_stop o) w = run env (force_stop o) w.
Proof.
  intros Hs Hf.
  pose proof (force_stop_run env o w Hs Hf) as Hrun.
  rewrite (@run_seq _ env (force_stop o) (force_stop o) w _ Hrun).
  rewrite Hrun.
  match goal with |- run env _ ?w1' = _ => set (w1 := w1') end.
  assert (Hl : lookup_osc (coord w1) o =
               Some {| stop_request := stop_request s; pwm := None;
                       future := Some (cancel f) |}).
  { unfold w1. destruct s as [sr [p|] fu]; simpl in *; subst fu;
      rewrite !lookup_update_osc, Hs; reflexivity. }
  rewrite (force_stop_run env o w1 Hl eq_refl). cbn [pwm].
  rewrite cancel_cancel.
  rewrite (update_osc_same _ _ _ Hl) by reflexivity.
  rewrite set_coord_same. reflexivity.
Qed.

Lemma force_stop_twice_witness :
  run (quiet false) (force_stop 0 ;; force_stop 0) world_shown =
  run (quiet false) (force_stop 0) world_shown.
Proof.
  apply (@force_stop_twice (quiet false) 0%nat (launched 17) FPending world_shown);
    reflexivity.
Defined.

(** ** The command line *)

Lemma index_absent arg l : ~ In arg l -> index arg l = None.
Proof.
  induction l as [|y l IH]; intros Hn; [reflexivity|]. simpl.
  destruct (String.eqb_spec y arg) as [->|Hne]; [exfalso; apply Hn; left; reflexivity|].
  rewrite IH; [reflexivity|]. intros H. apply Hn. right. exact H.
Qed.

Lemma index_first arg pre rest :
  ~ In arg pre -> index arg (pre ++ arg :: rest) = Some (List.length pre).
Proof.
  induction pre as [|y pre IH]; intros Hn; simpl.
  - rewrite String.eqb_refl. reflexivity.
  - destruct (String.eqb_spec y arg) as [->|Hne]; [exfalso; apply Hn; left; reflexivity|].
    rewrite IH; [reflexivity|]. intros H. apply Hn. right. exact H.
Qed.

(** X13. [get_argument] looks at the first occurrence of the option only.
    It gives the word that follows it, whatever that word is; if the option
    does not occur, or occurs first as the last word of the command line, it
    gives the default. *)
Theorem get_argument_first_occurrence argv arg default :
  (~ In arg argv -> get_argument argv arg default = default) /\
  (forall pre v post, ~ In arg pre -> argv = pre ++ arg :: v :: post ->
     get_argument argv arg default = Some v) /\
  (forall pre, ~ In arg pre -> argv = pre ++ [arg] ->
     get_argument argv arg default = default).
Proof.
  unfold get_argument. split; [|split].
  - intros Hn. rewrite index_absent by assumption. reflexivity.
  - intros pre v post Hn ->. rewrite index_first by assumption.
    rewrite nth_error_app2 by lia.
    replace (List.length pre + 1 - List.length pre)%nat with 1%nat by lia.
    reflexivity.
  - intros pre Hn ->. rewrite index_first by assumption.
    rewrite nth_error_app2 by lia.
    replace (List.length pre + 1 - List.length pre)%nat with 1%nat by lia.
    reflexivity.
Qed.

Lemma get_argument_first_occurrence_witness :
  get_argument ["api_server.py"; "--host"; "--port"; "80"; "--host"; "::1"]%string
    "--host"%string (Some "0.0.0.0"%string) = Some "--port"%string /\
  get_argument ["api_server.py"; "--host"; "::1"; "--port"]%string
    "--port"%string (Some "8081"%string) = Some "8081"%string.
Proof.
  split.
  - apply (proj1 (proj2 (get_argument_first_occurrence
             ["api_server.py"; "--host"; "--port"; "80"; "--host"; "::1"]%string
             "--host"%string (Some "0.0.0.0"%string)))
             ["api_server.py"%string] "--port"%string
             ["80"; "--host"; "::1"]%string); [|reflexivity].
    simpl. intros [H|[]]. discriminate.
  - apply (proj2 (proj2 (get_argument_first_occurrence
             ["api_server.py"; "--host"; "::1"; "--port"]%string
             "--port"%string (Some "8081"%string)))
             ["api_server.py"; "--host"; "::1"]%string); [|reflexivity].
    simpl. intros [H|[H|[H|[]]]]; discriminate.
Defined.

(** ** The HTTP handlers *)

Section HandlerProperties.

Variable Other : Type.
Variable int_of_other : Other -> IntResult.

Let ok : Reply := Respond (json_response status_200 Omitted) false.
Let bad_request : Reply :=
  Respond (json_response reason_check_your_value (Passed 400)) true.

Lemma Server_show_number_int env z w :
  run env (Server_show_number int_of_other (BodyObject (Some (JInt Other z)))) w =
  match run env (show_number z true) w with
  | (Returned _, w') => (Returned ok, w')
  | (Raised ValueError, w') => (Returned bad_request, w')
  | (Raised e, w') => (Raised e, w')
  | (Blocked, w') => (Blocked, w')
  | (Diverged, w') => (Diverged, w')
  end.
Proof.
  unfold Server_show_number, show_number_or_400.
  rewrite run_bind, run_try_except, run_bind.
  destruct (run env (show_number z true) w) as [[[]|e| |] w']; try reflexivity.
  destruct e; reflexivity.
Qed.

Lemma show_number_rejected env z sb w :
  z <= 0 \/ 128 <= z ->
  run env (show_number z sb) w = (Raised ValueError, log (EvStdout z) w).
Proof.
  intros Hz. unfold show_number. rewrite run_bind.
  change (run env (print z) w) with (Returned tt, log (EvStdout z) w).
  cbv beta iota.
  replace (negb ((128 >? z) && (z >? 0))) with true; [reflexivity|].
  symmetry. apply negb_true_iff, andb_false_iff.
  destruct Hz; [right | left]; rewrite Z.gtb_ltb; apply Z.ltb_ge; lia.
Qed.

(** X14. [POST /number] answers 200 without doing anything when the body
    has no [number] or a null one.  It answers 400, with a logged exception,
    when [number] is an integer outside 1..127 (only the echo on stdout has
    happened, no driver call) or is a value on which [int] raises
    [ValueError].  A value that [int] converts is treated as the integer it
    converts to. *)
Theorem Server_show_number_rejections env w :
  run env (Server_show_number int_of_other (BodyObject None)) w = (Returned ok, w) /\
  run env (Server_show_number int_of_other (BodyObject (Some (JNull Other)))) w =
    (Returned ok, w) /\
  (forall z, z <= 0 \/ 128 <= z ->
     run env (Server_show_number int_of_other (BodyObject (Some (JInt Other z)))) w =
     (Returned bad_request, log (EvStdout z) w)) /\
  (forall v, int_of_other v = IntValueError ->
     run env (Server_show_number int_of_other (BodyObject (Some (JOther v)))) w =
     (Returned bad_request, w)) /\
  (forall v z, int_of_other v = IntValue z ->
     run env (Server_show_number int_of_other (BodyObject (Some (JOther v)))) w =
     run env (Server_show_number int_of_other (BodyObject (Some (JInt Other z)))) w).
Proof.
  split; [reflexivity|]. split; [reflexivity|]. split; [|split].
  - intros z Hz. rewrite Server_show_number_int, show_number_rejected by assumption.
    reflexivity.
  - intros v Hv. unfold Server_show_number. rewrite Hv. reflexivity.
  - intros v z Hv. unfold Server_show_number. rewrite Hv. reflexivity.
Qed.

(** X15. [POST /number] with an integer from 1 to 127, on a coordinator
    whose lock is free, answers 200; the call has displayed the number with
    the breathing indicator: the display lines then read as its seven-bit
    pattern. *)
Theorem Server_show_number_displays env z w :
  0 < z < 128 -> locked w = false ->
  outcome env (Server_show_number int_of_other (BodyObject (Some (JInt Other z)))) w =
    Returned ok /\
  events_of env (Server_show_number int_of_other (BodyObject (Some (JInt Other z)))) w =
    show_number_events z true /\
  read_display
    (trace (exec env
              (Server_show_number int_of_other (BodyObject (Some (JInt Other z)))) w)) =
    levels_of z.
Proof.
  intros Hz Hfree.
  destruct (show_number_run env true w Hz Hfree) as (w' & Hrun & Htr & _).
  pose proof (Server_show_number_int env z w) as Hh. rewrite Hrun in Hh.
  unfold outcome, exec. rewrite Hh. cbn [fst snd].
  split; [reflexivity|]. split.
  - apply events_of_trace. unfold exec. rewrite Hh. exact Htr.
  - rewrite Htr. unfold show_number_events.
    rewrite (app_assoc [EvStdout z; EvAcquire]).
    apply read_display_after_pattern.
Qed.

(** X16. On a coordinator whose lock is free and whose oscillator, if any,
    can be waited for, [POST /light] and [POST /breath] always answer 200.
    After [/light] each of the eight lines is LOW; after [/breath] no PWM runs
    on any of them. *)
Theorem light_and_breath_handlers env w :
  locked w = false -> reconcilable (coord w) ->
  (outcome env Server_light_control w = Returned ok /\
   forall p, In p pins -> line_level (trace (exec env Server_light_control w)) p = LOW) /\
  (outcome env Server_breath_control w = Returned ok /\
   forall p, In p pins -> line_pwm (trace (exec env Server_breath_control w)) p = None).
Proof.
  intros Hfree Hrec. split.
  - destruct (flash_postcondition env 3 (Some pins) true w Hfree Hrec)
      as (Hout & _ & _ & _ & Hlow).
    unfold outcome, exec, Server_light_control in *. rewrite run_bind.
    destruct (run env (set_light_flash 3 (Some pins) true) w) as [[[]|e| |] w'];
      try discriminate.
    split; [reflexivity|]. intros p Hp. apply Hlow; [lia | exact Hp].
  - destruct (@breath_postcondition env 0 1 None pins w eq_refl Hfree Hrec)
      as (Hout & _ & _ & _ & Hpwm).
    unfold outcome, exec, Server_breath_control, call_set_light_breath, arg_or in *.
    rewrite run_bind.
    destruct (run env (set_light_breath 0 (Some 1) None) w) as [[[]|e| |] w'];
      try discriminate.
    split; [reflexivity | exact Hpwm].
Qed.

End HandlerProperties.

Lemma Server_show_number_displays_witness :
  outcome (quiet false)
    (Server_show_number (fun _ : unit => IntOtherError)
       (BodyObject (Some (JInt unit 5)))) world0 =
    Returned (Respond (json_response status_200 Omitted) false).
Proof.
  apply (@Server_show_number_displays unit (fun _ => IntOtherError) (quiet false) 5 world0);
    [lia | reflexivity].
Defined.

Lemma light_and_breath_handlers_witness :
  outcome (quiet false) Server_light_control world_shown =
    Returned (Respond (json_response status_200 Omitted) false) /\
  outcome (quiet false) Server_breath_control world_shown =
    Returned (Respond (json_response status_200 Omitted) false).
Proof.
  destruct (@light_and_breath_handlers (quiet false) world_shown eq_refl)
    as [[H1 _] [H2 _]].
  - exists (launched 17). split; [reflexivity | left; reflexivity].
  - split; assumption.
Defined.

Lemma Server_show_number_rejections_witness :
  run (quiet false)
    (Server_show_number (fun _ : unit => IntValueError)
       (BodyObject (Some (JInt unit 128)))) world0 =
  (Returned (Respond (json_response reason_check_your_value (Passed 400)) true),
   log (EvStdout 128) world0).
Proof.
  destruct (@Server_show_number_rejections unit (fun _ => IntValueError)
              (quiet false) world0) as (_ & _ & H & _).
  apply H. right. lia.
Defined.

(** ** Signals and the idle loop *)

Lemma deliver_first n :
  deliver (S n) {| _idled := true; killed := false |} =
  {| _idled := false; killed := (0 <? n)%nat |}.
Proof.
  cbn [deliver killed]. unfold _reset_idle. cbn [_idled negb killed].
  destruct n as [|n]; [reflexivity|].
  cbn [deliver killed]. unfold _reset_idle. cbn [_idled negb killed].
  destruct n; reflexivity.
Qed.

Lemma idle_loop_waits signals k fuel k0 :
  (forall j, (j < k)%nat -> signals (k0 + j)%nat = O) ->
  idle_loop (k + fuel) signals k0 {| _idled := true; killed := false |} =
  idle_loop fuel signals (k0 + k) {| _idled := true; killed := false |}.
Proof.
  revert k0. induction k as [|k IH]; intros k0 Hq.
  - rewrite Nat.add_0_r. reflexivity.
  - cbn [Nat.add idle_loop killed _idled].
    pose proof (Hq O ltac:(lia)) as H0. rewrite Nat.add_0_r in H0. rewrite H0.
    cbn [deliver]. rewrite IH.
    + f_equal. lia.
    + intros j Hj. replace (S k0 + j)%nat with (k0 + S j)%nat by lia.
      apply Hq. lia.
Qed.

(** X17. [idle] sleeps until the first signal: when the first signals arrive
    during sleep number [k], the loop ends after [k + 1] sleeps with [_idled]
    cleared, and the process has been killed exactly when more than one
    signal arrived during that sleep. *)
Theorem idle_ends_at_first_signal signals k fuel st :
  killed st = false ->
  (forall j, (j < k)%nat -> signals j = O) ->
  (0 < signals k)%nat ->
  (k + 1 < fuel)%nat ->
  idle fuel signals st =
  Some (S k, {| _idled := false; killed := (1 <? signals k)%nat |}).
Proof.
  intros Hk Hq Hs Hf. unfold idle. rewrite Hk.
  replace fuel with (k + (2 + (fuel - k - 2)))%nat by lia.
  rewrite idle_loop_waits by (intros j Hj; apply Hq; exact Hj).
  cbn [Nat.add idle_loop killed _idled].
  destruct (signals k) as [|n] eqn:E; [lia|].
  rewrite deliver_first.
  destruct n as [|n]; [reflexivity|].
  destruct n; reflexivity.
Qed.

Lemma idle_ends_at_first_signal_witness :
  idle 5 (fun k => if (k =? 2)%nat then 1%nat else O)
    {| _idled := false; killed := false |} =
  Some (3%nat, {| _idled := false; killed := false |}).
Proof.
  apply (@idle_ends_at_first_signal (fun k => if (k =? 2)%nat then 1%nat else O) 2 5
           {| _idled := false; killed := false |}).
  - reflexivity.
  - intros j Hj. destruct j as [|[|j]]; [reflexivity | reflexivity | lia].
  - cbn. lia.
  - lia.
Defined.

(** X18. Without a signal [idle] never returns: whatever the number of
    sleeps allowed, the loop is still waiting. *)
Theorem idle_waits_forever signals st :
  killed st = false ->
  (forall j, signals j = O) ->
  forall fuel, idle fuel signals st = None.
Proof.
  intros Hk Hq fuel. unfold idle. rewrite Hk.
  replace fuel with (fuel + 0)%nat by lia.
  rewrite idle_loop_waits by (intros j _; apply Hq).
  reflexivity.
Qed.

Lemma idle_waits_forever_witness :
  idle 1000 (fun _ => O) {| _idled := false; killed := false |} = None.
Proof.
  apply (@idle_waits_forever (fun _ => O) {| _idled := false; killed := false |});
    [reflexivity | intros j; reflexivity].
Defined.

(** X19. A signal received while [_idled] is already cleared kills the
    process, and so does every second signal of a pair: of two or more
    signals in a row delivered to an idling server, the first clears
    [_idled] and the second kills. *)
Theorem second_signal_kills n st :
  killed st = false ->
  (_idled st = false -> killed (deliver (S n) st) = true) /\
  (_idled st = true ->
     deliver 1 st = {| _idled := false; killed := false |} /\
     killed (deliver (S (S n)) st) = true).
Proof.
  intros Hk. destruct st as [i kd]. cbn in Hk. subst kd. split; intros Hi; cbn in Hi; subst i.
  - cbn [deliver killed]. unfold _reset_idle. cbn [_idled negb killed].
    destruct n; reflexivity.
  - split; [reflexivity|]. rewrite deliver_first. reflexivity.
Qed.

Lemma second_signal_kills_witness :
  killed (deliver 2 {| _idled := true; killed := false |}) = true.
Proof.
  destruct (@second_signal_kills 0 {| _idled := true; killed := false |} eq_refl)
    as [_ H].
  destruct (H eq_refl) as [_ H2]. exact H2.
Defined.
